(** * curaq-clipper: the popup's share handler

    A shallow embedding of [src/entrypoints/popup/main.ts] together with the
    parts of the JavaScript host it calls: strings as sequences of UTF-16
    code units, the built-in [encodeURIComponent] (ECMA-262, 19.2.6), the
    two extension calls [browser.tabs.query] and [browser.tabs.create], and
    the part of the DOM the script touches ([getElementById],
    [addEventListener], click dispatch). *)

From Stdlib Require Import String Ascii ZArith List Bool Lia.
Import ListNotations.
Open Scope Z_scope.

(* ------------------------------------------------------------------ *)
(** ** JavaScript strings and completions *)

(** A JavaScript string is a finite sequence of 16-bit code units. *)
Definition jsstring := list Z.

Definition code_unit (c : Z) : Prop := 0 <= c < 65536.

(** The code units of an ASCII literal. *)
Definition js (s : string) : jsstring :=
  map (fun a => Z.of_N (N_of_ascii a)) (list_ascii_of_string s).

(** The exceptions the handler can meet: the [URIError] of the URI
    functions and whatever reason a host promise rejects with. *)
Inductive JSError : Type :=
| URIError
| TypeError
| HostError (reason : jsstring).

(** Completion of an evaluation: a value, or an abrupt completion. *)
Inductive completion (A : Type) : Type :=
| Normal (a : A)
| Throw (e : JSError).
Arguments Normal {A} a.
Arguments Throw {A} e.

Definition cbind {A B} (c : completion A) (k : A -> completion B) : completion B :=
  match c with
  | Normal a => k a
  | Throw e => Throw e
  end.

Definition cmap {A B} (f : A -> B) (c : completion A) : completion B :=
  cbind c (fun a => Normal (f a)).

(** The values the handler manipulates are strings and [undefined]. *)
Inductive value : Type :=
| Undefined
| Str (s : jsstring).

Definition ToBoolean (v : value) : bool :=
  match v with
  | Undefined => false
  | Str [] => false
  | Str (_ :: _) => true
  end.

Definition ToString (v : value) : jsstring :=
  match v with
  | Undefined => js "undefined"
  | Str s => s
  end.

(* ------------------------------------------------------------------ *)
(** ** encodeURIComponent (ECMA-262 19.2.6.4, Encode 19.2.6.5) *)

Module URI.

Definition isLeadingSurrogate (c : Z) : bool := (0xD800 <=? c) && (c <=? 0xDBFF).
Definition isTrailingSurrogate (c : Z) : bool := (0xDC00 <=? c) && (c <=? 0xDFFF).

Definition UTF16SurrogatePairToCodePoint (lead trail : Z) : Z :=
  (lead - 0xD800) * 0x400 + (trail - 0xDC00) + 0x10000.

Record CodePointRecord : Type := mkCP {
  CodePoint : Z;
  CodeUnitCount : nat;
  IsUnpairedSurrogate : bool
}.

(** [CodePointAt string position], with the position given as the suffix
    [first :: rest] of the string that starts there. *)
Definition CodePointAt (first : Z) (rest : jsstring) : CodePointRecord :=
  if negb (isLeadingSurrogate first) && negb (isTrailingSurrogate first)
  then mkCP first 1 false
  else if isTrailingSurrogate first then mkCP first 1 true
  else match rest with
       | [] => mkCP first 1 true
       | second :: _ =>
           if negb (isTrailingSurrogate second) then mkCP first 1 true
           else mkCP (UTF16SurrogatePairToCodePoint first second) 2 false
       end.

(** The UTF-8 transformation of a code point into one to four octets. *)
Definition UTF8Encode (cp : Z) : list Z :=
  if cp <=? 0x7F then [cp]
  else if cp <=? 0x7FF then
    [Z.lor 0xC0 (Z.shiftr cp 6);
     Z.lor 0x80 (Z.land cp 0x3F)]
  else if cp <=? 0xFFFF then
    [Z.lor 0xE0 (Z.shiftr cp 12);
     Z.lor 0x80 (Z.land (Z.shiftr cp 6) 0x3F);
     Z.lor 0x80 (Z.land cp 0x3F)]
  else
    [Z.lor 0xF0 (Z.shiftr cp 18);
     Z.lor 0x80 (Z.land (Z.shiftr cp 12) 0x3F);
     Z.lor 0x80 (Z.land (Z.shiftr cp 6) 0x3F);
     Z.lor 0x80 (Z.land cp 0x3F)].

(** One uppercase hexadecimal digit, as a code unit. *)
Definition hexDigit (n : Z) : Z := if n <? 10 then 48 + n else 55 + n.

(** ["%"] followed by the octet as two uppercase hexadecimal digits. *)
Definition percentOctet (octet : Z) : jsstring :=
  [37; hexDigit (Z.shiftr octet 4); hexDigit (Z.land octet 0xF)].

Definition percentOctets (octets : list Z) : jsstring :=
  flat_map percentOctet octets.

Definition asciiWordCharacters : jsstring :=
  js "ABCDEFGHIJKLMNOPQRSTUVWXYZabcdefghijklmnopqrstuvwxyz0123456789_".

Definition alwaysUnescaped : jsstring := asciiWordCharacters ++ js "-.!~*'()".

Definition contains (set : jsstring) (c : Z) : bool := existsb (Z.eqb c) set.

(** [Encode string extraUnescaped]: the loop over the index [k] is the
    recursion over the suffix of the string that starts at [k]. *)
Fixpoint Encode (extraUnescaped : jsstring) (s : jsstring) : completion jsstring :=
  match s with
  | [] => Normal []
  | C :: rest =>
      if contains (alwaysUnescaped ++ extraUnescaped) C then
        cmap (cons C) (Encode extraUnescaped rest)
      else
        let cp := CodePointAt C rest in
        if IsUnpairedSurrogate cp then Throw URIError
        else
          let next :=
            match CodeUnitCount cp, rest with
            | 2%nat, _ :: rest' => rest'
            | _, _ => rest
            end in
          cmap (app (percentOctets (UTF8Encode (CodePoint cp))))
               (Encode extraUnescaped next)
  end.

Definition encodeURIComponent (uriComponent : value) : completion jsstring :=
  Encode [] (ToString uriComponent).

(* ------------------------------------------------------------------ *)
(** ** decodeURIComponent (ECMA-262 19.2.6.2, Decode 19.2.6.6)

    The program never calls it; it is the percent-decoding the receiving
    page applies to the [url] parameter, against which the round trip is
    stated. *)

Definition hexValue (c : Z) : option Z :=
  if (48 <=? c) && (c <=? 57) then Some (c - 48)
  else if (65 <=? c) && (c <=? 70) then Some (c - 55)
  else if (97 <=? c) && (c <=? 102) then Some (c - 87)
  else None.

Definition ParseHexOctet (h l : Z) : option Z :=
  match hexValue h, hexValue l with
  | Some a, Some b => Some (16 * a + b)
  | _, _ => None
  end.

(** Number of leading 1 bits of an octet. *)
Definition leadingOnes (B : Z) : nat :=
  if B <? 0x80 then 0
  else if B <? 0xC0 then 1
  else if B <? 0xE0 then 2
  else if B <? 0xF0 then 3
  else if B <? 0xF8 then 4
  else if B <? 0xFC then 5
  else if B <? 0xFE then 6
  else if B <? 0xFF then 7
  else 8.

Definition isContinuation (b : Z) : bool := (0x80 <=? b) && (b <=? 0xBF).

(** The inverse UTF-8 transformation: the code point of a list of octets
    that is a valid (shortest-form, non-surrogate) encoding, if it is one. *)
Definition UTF8Decode (octets : list Z) : option Z :=
  match octets with
  | [b0; b1] =>
      let V := Z.lor (Z.shiftl (Z.land b0 0x1F) 6) (Z.land b1 0x3F) in
      if isContinuation b1 && (0x80 <=? V) then Some V else None
  | [b0; b1; b2] =>
      let V := Z.lor (Z.shiftl (Z.land b0 0xF) 12)
                 (Z.lor (Z.shiftl (Z.land b1 0x3F) 6) (Z.land b2 0x3F)) in
      if isContinuation b1 && isContinuation b2 && (0x800 <=? V)
         && negb ((0xD800 <=? V) && (V <=? 0xDFFF))
      then Some V else None
  | [b0; b1; b2; b3] =>
      let V := Z.lor (Z.shiftl (Z.land b0 0x7) 18)
                 (Z.lor (Z.shiftl (Z.land b1 0x3F) 12)
                    (Z.lor (Z.shiftl (Z.land b2 0x3F) 6) (Z.land b3 0x3F))) in
      if isContinuation b1 && isContinuation b2 && isContinuation b3
         && (0x10000 <=? V) && (V <=? 0x10FFFF)
      then Some V else None
  | _ => None
  end.

Definition UTF16EncodeCodePoint (cp : Z) : jsstring :=
  if cp <=? 0xFFFF then [cp]
  else [(cp - 0x10000) / 0x400 + 0xD800; (cp - 0x10000) mod 0x400 + 0xDC00].

(** A ["%XX"] escape at the head of [s], handed to [k] with what follows
    it; anything else there is a [URIError]. *)
Definition escapeAt {A} (s : jsstring) (k : Z -> jsstring -> completion A)
  : completion A :=
  match s with
  | p :: h :: l :: rest =>
      if p =? 37 then
        match ParseHexOctet h l with
        | Some B => k B rest
        | None => Throw URIError
        end
      else Throw URIError
  | _ => Throw URIError
  end.

Definition emitOctets (octets : list Z) (R : completion jsstring)
  : completion jsstring :=
  match UTF8Decode octets with
  | Some V => cmap (app (UTF16EncodeCodePoint V)) R
  | None => Throw URIError
  end.

(** [Decode string preserveEscapeSet] with the empty preserve set. *)
Fixpoint Decode (s : jsstring) : completion jsstring :=
  match s with
  | [] => Normal []
  | C :: rest =>
      if C =? 37 then
        match rest with
        | h :: l :: rest1 =>
            match ParseHexOctet h l with
            | None => Throw URIError
            | Some B =>
                match leadingOnes B with
                | 0%nat => cmap (cons B) (Decode rest1)
                | 2%nat =>
                    escapeAt rest1 (fun b1 r1 =>
                      emitOctets [B; b1] (Decode r1))
                | 3%nat =>
                    escapeAt rest1 (fun b1 r1 =>
                    escapeAt r1 (fun b2 r2 =>
                      emitOctets [B; b1; b2] (Decode r2)))
                | 4%nat =>
                    escapeAt rest1 (fun b1 r1 =>
                    escapeAt r1 (fun b2 r2 =>
                    escapeAt r2 (fun b3 r3 =>
                      emitOctets [B; b1; b2; b3] (Decode r3))))
                | _ => Throw URIError
                end
            end
        | _ => Throw URIError
        end
      else cmap (cons C) (Decode rest)
  end.

Definition decodeURIComponent (encoded : jsstring) : completion jsstring :=
  Decode encoded.

End URI.

(* ------------------------------------------------------------------ *)
(** ** The extension host: browser.tabs *)

Module Tabs.

(** [tabs.Tab], with the members the popup can observe. *)
Record Tab : Type := mkTab {
  id : Z;
  url : value
}.

Record QueryInfo : Type := mkQueryInfo {
  active : option bool;
  currentWindow : option bool
}.

Record CreateProperties : Type := mkCreateProperties {
  create_url : value
}.

(** A request sent to the host. *)
Inductive Call : Type :=
| QueryCall (queryInfo : QueryInfo)
| CreateCall (createProperties : CreateProperties).

End Tabs.
Import Tabs.

(** An async function body over the two host calls: each [Await_] node is
    an [await] of the promise the call returned, and [k] is the rest of the
    body, run with the value the promise resolved with. A rejected promise
    makes the [await] throw; the body has no [try], so the function's own
    promise rejects with the same reason (see [run]). *)
Inductive Async (A : Type) : Type :=
| Return (a : A)
| Raise (e : JSError)
| AwaitQuery (queryInfo : QueryInfo) (k : list Tab -> Async A)
| AwaitCreate (createProperties : CreateProperties) (k : Tab -> Async A).
Arguments Return {A} a.
Arguments Raise {A} e.
Arguments AwaitQuery {A} queryInfo k.
Arguments AwaitCreate {A} createProperties k.

Definition eval {A} (c : completion A) : Async A :=
  match c with
  | Normal a => Return a
  | Throw e => Raise e
  end.

Fixpoint abind {A B} (p : Async A) (f : A -> Async B) : Async B :=
  match p with
  | Return a => f a
  | Raise e => Raise e
  | AwaitQuery q k => AwaitQuery q (fun ts => abind (k ts) f)
  | AwaitCreate c k => AwaitCreate c (fun t => abind (k t) f)
  end.

Declare Scope async_scope.
Delimit Scope async_scope with async.
Notation "'let*' x ':=' c1 'in' c2" := (abind c1 (fun x => c2))
  (at level 61, x pattern, c1 at next level, right associativity) : async_scope.
Notation "'await' 'browser.tabs.query' q" := (AwaitQuery q (fun ts => Return ts))
  (at level 60, q at level 9) : async_scope.
Notation "'await' 'browser.tabs.create' c" := (AwaitCreate c (fun t => Return t))
  (at level 60, c at level 9) : async_scope.

(* ------------------------------------------------------------------ *)
(** ** src/entrypoints/popup/main.ts *)

(** [const [tab] = tabs]: the array pattern binds the first element of the
    array, [undefined] (here [None]) when there is none. *)
Definition firstOf (tabs : list Tab) : option Tab := nth_error tabs 0.

(** The optional chain [tab?.url] is [undefined] on an undefined [tab]. *)
Definition optional_url (tab : option Tab) : value :=
  match tab with
  | None => Undefined
  | Some t => url t
  end.

(** The member access [tab.url] throws a [TypeError] on an undefined [tab]. *)
Definition member_url (tab : option Tab) : completion value :=
  match tab with
  | None => Throw TypeError
  | Some t => Normal (url t)
  end.

Definition share_prefix : jsstring := js "https://curaq.pages.dev/share?url=".

(** The click listener, the body of the [async () => { ... }] arrow. *)
Definition clickHandler : Async unit :=
  (let* tabs := await browser.tabs.query (mkQueryInfo (Some true) (Some true)) in
   let tab := firstOf tabs in
   if ToBoolean (optional_url tab) then
     let* tab_url := eval (member_url tab) in
     let* encodedUrl := eval (URI.encodeURIComponent tab_url) in
     let targetUrl := share_prefix ++ encodedUrl in
     let* _ := await browser.tabs.create (mkCreateProperties (Str targetUrl)) in
     Return tt
   else Return tt)%async.

(** The value the guard of the handler tests, by the array the query
    resolved with. *)
Definition first_url (tabs : list Tab) : value := optional_url (firstOf tabs).

(* ------------------------------------------------------------------ *)
(** ** Running the handler against a host *)

(** The host answers each call from its current state (the windows and
    tabs it holds) and moves to a new one; an answer is the value the
    promise resolves with, or the reason it rejects with. *)
Record Host (World : Type) : Type := mkHost {
  tabs_query : QueryInfo -> World -> completion (list Tab) * World;
  tabs_create : CreateProperties -> World -> completion Tab * World
}.
Arguments mkHost {World} tabs_query tabs_create.
Arguments tabs_query {World} h queryInfo w.
Arguments tabs_create {World} h createProperties w.

Record Outcome (World A : Type) : Type := mkOutcome {
  calls : list Call;          (* the requests issued, in order *)
  settled : completion A;     (* how the function's promise settled *)
  world : World               (* the host afterwards *)
}.
Arguments mkOutcome {World A} calls settled world.
Arguments calls {World A} o.
Arguments settled {World A} o.
Arguments world {World A} o.

Definition issued {World A} (c : Call) (o : Outcome World A) : Outcome World A :=
  mkOutcome (c :: calls o) (settled o) (world o).

Fixpoint run {World A} (h : Host World) (p : Async A) (w : World)
  : Outcome World A :=
  match p with
  | Return a => mkOutcome [] (Normal a) w
  | Raise e => mkOutcome [] (Throw e) w
  | AwaitQuery q k =>
      match tabs_query h q w with
      | (Normal ts, w') => issued (QueryCall q) (run h (k ts) w')
      | (Throw e, w') => mkOutcome [QueryCall q] (Throw e) w'
      end
  | AwaitCreate c k =>
      match tabs_create h c w with
      | (Normal t, w') => issued (CreateCall c) (run h (k t) w')
      | (Throw e, w') => mkOutcome [CreateCall c] (Throw e) w'
      end
  end.

(** The tab-creation requests among the calls, by the address asked for. *)
Fixpoint created (cs : list Call) : list value :=
  match cs with
  | [] => []
  | QueryCall _ :: cs' => created cs'
  | CreateCall c :: cs' => create_url c :: created cs'
  end.

Definition activeTabQuery : QueryInfo := mkQueryInfo (Some true) (Some true).

(* ------------------------------------------------------------------ *)
(** ** Overlapping invocations on the event loop *)

Inductive Task : Type :=
| Pending (p : Async unit)
| Settled (c : completion unit).

(** One turn of a task: it runs up to and including its next host call and
    is resumed by a later turn with the answer to that call. *)
Definition turn {World} (h : Host World) (p : Async unit) (w : World)
  : list Call * Task * World :=
  match p with
  | Return a => ([], Settled (Normal a), w)
  | Raise e => ([], Settled (Throw e), w)
  | AwaitQuery q k =>
      match tabs_query h q w with
      | (Normal ts, w') => ([QueryCall q], Pending (k ts), w')
      | (Throw e, w') => ([QueryCall q], Settled (Throw e), w')
      end
  | AwaitCreate c k =>
      match tabs_create h c w with
      | (Normal t, w') => ([CreateCall c], Pending (k t), w')
      | (Throw e, w') => ([CreateCall c], Settled (Throw e), w')
      end
  end.

Fixpoint turnAt {World} (h : Host World) (i : nat) (tasks : list Task) (w : World)
  {struct tasks} : list Call * list Task * World :=
  match tasks, i with
  | [], _ => ([], [], w)
  | Pending p :: rest, O =>
      let '(cs, t, w') := turn h p w in (cs, t :: rest, w')
  | Settled c :: rest, O => ([], tasks, w)
  | t :: rest, S i' =>
      let '(cs, rest', w') := turnAt h i' rest w in (cs, t :: rest', w')
  end.

(** The event loop under a schedule: the list of the tasks that get the
    successive turns. *)
Fixpoint eventLoop {World} (h : Host World) (schedule : list nat)
  (tasks : list Task) (w : World) : list Call * list Task * World :=
  match schedule with
  | [] => ([], tasks, w)
  | i :: schedule' =>
      let '(cs, tasks', w') := turnAt h i tasks w in
      let '(cs', tasks'', w'') := eventLoop h schedule' tasks' w' in
      (cs ++ cs', tasks'', w'')
  end.

Definition isSettled (t : Task) : bool :=
  match t with
  | Settled _ => true
  | Pending _ => false
  end.

(* ------------------------------------------------------------------ *)
(** ** The popup document and the script's top level *)

Module DOM.

Definition Listener : Type := Async unit.

Record Element : Type := mkElement {
  el_id : jsstring;
  parent : option nat;                     (* position of the parent element *)
  listeners : list (jsstring * Listener)   (* event type, callback *)
}.

(** The elements of the document, in tree order: an element stands after
    its parent. *)
Definition Document : Type := list Element.

Fixpoint eqb_string (a b : jsstring) : bool :=
  match a, b with
  | [], [] => true
  | x :: a', y :: b' => (x =? y) && eqb_string a' b'
  | _, _ => false
  end.

(** [document.getElementById]: the position of the first element with
    that id, [None] for JavaScript's [null]. *)
Fixpoint getElementById (doc : Document) (wanted : jsstring) : option nat :=
  match doc with
  | [] => None
  | e :: doc' =>
      if eqb_string (el_id e) wanted then Some O
      else option_map S (getElementById doc' wanted)
  end.

Fixpoint addEventListener (doc : Document) (target : nat)
  (type : jsstring) (callback : Listener) {struct doc} : Document :=
  match doc, target with
  | [], _ => []
  | e :: doc', O =>
      mkElement (el_id e) (parent e) (listeners e ++ [(type, callback)]) :: doc'
  | e :: doc', S n => e :: addEventListener doc' n type callback
  end.

(** A member call [target.m(...)] throws a [TypeError] on [null]; the
    optional chain [target?.m(...)] evaluates to [undefined] instead and
    leaves the document as it is. *)
Definition memberCall (doc : Document) (target : option nat)
  (m : Document -> nat -> Document) : completion Document :=
  match target with
  | None => Throw TypeError
  | Some el => Normal (m doc el)
  end.

Definition optionalCall (doc : Document) (target : option nat)
  (m : Document -> nat -> Document) : completion Document :=
  match target with
  | None => Normal doc
  | Some el => memberCall doc (Some el) m
  end.

(** The click listeners registered on the element at [target] itself. *)
Definition clickListeners (doc : Document) (target : nat) : list Listener :=
  match nth_error doc target with
  | None => []
  | Some e =>
      map snd (filter (fun l => eqb_string (fst l) (js "click")) (listeners e))
  end.

(** The elements an event passes while it bubbles: the one at [target],
    then its parent, and so on up to the root. In tree order a parent
    stands before its children, so the positions go down and [S target]
    steps reach the root; a parent position that does not stand before is
    read as no parent. *)
Fixpoint bubblePath (fuel : nat) (doc : Document) (target : nat) : list nat :=
  match fuel with
  | O => []
  | S fuel' =>
      match nth_error doc target with
      | None => []
      | Some e =>
          target ::
          match parent e with
          | Some p => if (p <? target)%nat then bubblePath fuel' doc p else []
          | None => []
          end
      end
  end.

Definition eventPath (doc : Document) (target : nat) : list nat :=
  bubblePath (S target) doc target.

End DOM.

(** The top level of [main.ts], run once when the popup loads. *)
Definition main (doc : DOM.Document) : completion DOM.Document :=
  DOM.optionalCall doc (DOM.getElementById doc (js "share-btn"))
    (fun d el => DOM.addEventListener d el (js "click") clickHandler).

(** A click on an element: the event bubbles from that element to the
    root, and on each element it passes every click listener is called, in
    the order of registration, and becomes a task of the event loop. The
    listeners are of the kind the script registers: added without options
    (no capture, not once), and, like the handler, not touching the event
    (none stops the propagation). *)
Definition click (doc : DOM.Document) (target : nat) : list Task :=
  map Pending (flat_map (DOM.clickListeners doc) (DOM.eventPath doc target)).

(* ------------------------------------------------------------------ *)
(** ** Reading the [url] parameter back from an address *)

Module Query.

(** [s] up to the first [sep], and what follows that [sep] if there is one. *)
Fixpoint cut (sep : Z) (s : jsstring) : jsstring * option jsstring :=
  match s with
  | [] => ([], None)
  | c :: s' =>
      if c =? sep then ([], Some s')
      else let '(before, after) := cut sep s' in (c :: before, after)
  end.

Fixpoint split (sep : Z) (s : jsstring) : list jsstring :=
  match s with
  | [] => [[]]
  | c :: s' =>
      if c =? sep then [] :: split sep s'
      else match split sep s' with
           | piece :: pieces => (c :: piece) :: pieces
           | [] => [[c]]
           end
  end.

(** The query of an address: what lies between the first ["?"] and the
    fragment. *)
Definition queryOf (address : jsstring) : option jsstring :=
  snd (cut 63 (fst (cut 35 address))).

Fixpoint lookup (name : jsstring) (pairs : list jsstring) : option jsstring :=
  match pairs with
  | [] => None
  | kv :: pairs' =>
      let '(n, v) := cut 61 kv in
      if DOM.eqb_string n name
      then Some (match v with Some v' => v' | None => [] end)
      else lookup name pairs'
  end.

(** The raw (still percent-encoded) value of the first parameter called
    [name] in the query of [address]. *)
Definition param (name : jsstring) (address : jsstring) : option jsstring :=
  match queryOf address with
  | None => None
  | Some q => lookup name (split 38 q)
  end.

End Query.

(* ------------------------------------------------------------------ *)
(** ** Auxiliary definitions for the statements *)

(** The integers below [n], for checks by enumeration. *)
Fixpoint upto (n : nat) : list Z :=
  match n with
  | O => []
  | S k => Z.of_nat k :: upto k
  end.


(** A scalar value: a code point that is not a surrogate. *)
Definition scalar (cp : Z) : Prop :=
  0 <= cp <= 0x10FFFF /\ ~ (0xD800 <= cp <= 0xDFFF).

(** [String.prototype.isWellFormed]: no unpaired surrogate. *)
Fixpoint isWellFormed (s : jsstring) : bool :=
  match s with
  | [] => true
  | c :: rest =>
      if URI.isLeadingSurrogate c then
        match rest with
        | d :: rest' => URI.isTrailingSurrogate d && isWellFormed rest'
        | [] => false
        end
      else negb (URI.isTrailingSurrogate c) && isWellFormed rest
  end.

(** The graph of [URI.Encode] with no extra unescaped character, one rule
    for each way the body of its loop consumes the head of the string and
    goes on. *)
Inductive Encodes : jsstring -> jsstring -> Prop :=
| Encodes_nil : Encodes [] []
| Encodes_unescaped C s r :
    URI.contains (URI.alwaysUnescaped ++ []) C = true ->
    Encodes s r -> Encodes (C :: s) (C :: r)
| Encodes_bmp C s r :
    URI.contains (URI.alwaysUnescaped ++ []) C = false ->
    URI.isLeadingSurrogate C = false -> URI.isTrailingSurrogate C = false ->
    Encodes s r ->
    Encodes (C :: s) (URI.percentOctets (URI.UTF8Encode C) ++ r)
| Encodes_pair C D s r :
    URI.contains (URI.alwaysUnescaped ++ []) C = false ->
    URI.isLeadingSurrogate C = true -> URI.isTrailingSurrogate D = true ->
    Encodes s r ->
    Encodes (C :: D :: s)
      (URI.percentOctets (URI.UTF8Encode (URI.UTF16SurrogatePairToCodePoint C D)) ++ r).

(** The code units [Encode] can emit: the unescaped set, ["%"] and the
    uppercase hexadecimal digits. *)
Definition outputAlphabet : jsstring :=
  URI.alwaysUnescaped ++ js "%0123456789ABCDEF".

(* ------------------------------------------------------------------ *)
(** ** Hosts to run the handler against *)

(** A window whose tabs are listed with the active one first: the query
    answers with that tab, and a created tab is put in front and focused. *)
Definition windowHost : Host (list Tab) :=
  mkHost
    (fun _ w => (Normal (match w with [] => [] | t :: _ => [t] end), w))
    (fun c w =>
       let t := mkTab (Z.of_nat (length w)) (create_url c) in (Normal t, t :: w)).

(** A host that gives the same two answers whatever its history. *)
Definition fixedHost (queried : completion (list Tab)) (creation : completion Tab)
  : Host unit :=
  mkHost (fun _ w => (queried, w)) (fun _ w => (creation, w)).

Definition nihongo : jsstring :=
  js "https://example.com/" ++ [0x65E5; 0x672C; 0x8A9E].

(** The character classes the specification names for the encoding. *)
Definition reservedSet : jsstring := js ":/?#[]@!$&'()*+,;=".
Definition space : Z := 32.
Definition unreservedSet : jsstring :=
  js "ABCDEFGHIJKLMNOPQRSTUVWXYZabcdefghijklmnopqrstuvwxyz0123456789-_.~".

(** The reserved characters [encodeURIComponent] escapes, and the ones it
    keeps. *)
Definition escapedReserved : jsstring := js ":/?#[]@$&+,;=".
Definition keptReserved : jsstring := js "!'()*".

(** The scenario of the two rapid clicks. *)
Definition atest : jsstring := js "https://a.test/".
Definition atest_target : jsstring :=
  js "https://curaq.pages.dev/share?url=https%3A%2F%2Fa.test%2F".



(** The tab-creation requests such an invocation has issued so far. *)
Definition requested (t : Task) : nat :=
  match t with
  | Pending (AwaitQuery _ _) => 0
  | Pending (AwaitCreate _ _) => 0
  | Pending _ => 1
  | Settled _ => 1
  end.

Definition requestedAll (tasks : list Task) : nat :=
  list_sum (map requested tasks).

(** Overlapping invocations on a tab whose address encodes to [encodedUrl]:
    what is left of the handler once its query has answered, and the
    states an invocation goes through. *)
Definition creating (encodedUrl : jsstring) : Async unit :=
  AwaitCreate (mkCreateProperties (Str (share_prefix ++ encodedUrl)))
    (fun _ => Return tt).

Definition onTab (encodedUrl : jsstring) (t : Task) : Prop :=
  t = Pending clickHandler \/ t = Pending (creating encodedUrl) \/
  t = Pending (Return tt) \/ exists c, t = Settled c.

(** The characters [encodeURIComponent] copies. *)
Definition unescaped (c : Z) : Prop :=
  URI.contains (URI.alwaysUnescaped ++ []) c = true.

(** A popup document to try the script on: a heading, the button with a
    listener of its own, a label inside the button, and a second element
    that repeats the button's id. *)
Definition popupDocument : DOM.Document :=
  [DOM.mkElement (js "title") None [];
   DOM.mkElement (js "share-btn") None [(js "focus", Return tt)];
   DOM.mkElement (js "label") (Some 1%nat) [];
   DOM.mkElement (js "share-btn") None []].

(* ------------------------------------------------------------------ *)
(** * Evaluation on the scenarios of the specification *)

Example enc_scenario1 :
  URI.encodeURIComponent (Str (js "https://example.com/path?a=1&b=2"))
  = Normal (js "https%3A%2F%2Fexample.com%2Fpath%3Fa%3D1%26b%3D2").
Proof. reflexivity. Qed.

Example enc_nihongo :
  URI.encodeURIComponent (Str (js "https://example.com/" ++ [0x65E5; 0x672C; 0x8A9E]))
  = Normal (js "https%3A%2F%2Fexample.com%2F%E6%97%A5%E6%9C%AC%E8%AA%9E").
Proof. reflexivity. Qed.

Example enc_astral :
  URI.encodeURIComponent (Str [0xD83D; 0xDE00]) = Normal (js "%F0%9F%98%80").
Proof. reflexivity. Qed.

Example enc_lone : URI.encodeURIComponent (Str [0xD83D]) = Throw URIError.
Proof. reflexivity. Qed.

Example enc_bang : URI.encodeURIComponent (Str (js "!'()*")) = Normal (js "!'()*").
Proof. reflexivity. Qed.

Example dec_scenario1 :
  URI.decodeURIComponent (js "https%3A%2F%2Fexample.com%2Fpath%3Fa%3D1%26b%3D2")
  = Normal (js "https://example.com/path?a=1&b=2").
Proof. reflexivity. Qed.

Example dec_nihongo :
  URI.decodeURIComponent (js "%E6%97%A5%E6%9C%AC%E8%AA%9E%F0%9F%98%80")
  = Normal [0x65E5; 0x672C; 0x8A9E; 0xD83D; 0xDE00].
Proof. reflexivity. Qed.

Example dec_bad1 : URI.decodeURIComponent (js "%C0%80") = Throw URIError.
Proof. reflexivity. Qed.
Example dec_bad2 : URI.decodeURIComponent (js "%ED%A0%80") = Throw URIError.
Proof. reflexivity. Qed.
Example dec_bad3 : URI.decodeURIComponent (js "%E6%97") = Throw URIError.
Proof. reflexivity. Qed.
Example dec_lower : URI.decodeURIComponent (js "%e6%97%a5") = Normal [0x65E5].
Proof. reflexivity. Qed.

Example param_ex :
  Query.param (js "url") (js "https://curaq.pages.dev/share?x=1&url=a%3Db&y#url=2")
  = Some (js "a%3Db").
Proof. reflexivity. Qed.

Example scenario_1 :
  created (calls (run windowHost clickHandler
                    [mkTab 1 (Str (js "https://example.com/path?a=1&b=2"))]))
  = [Str (js "https://curaq.pages.dev/share?url=https%3A%2F%2Fexample.com%2Fpath%3Fa%3D1%26b%3D2")].
Proof. reflexivity. Qed.

Example scenario_3 :
  run windowHost clickHandler [] = mkOutcome [QueryCall activeTabQuery] (Normal tt) [].
Proof. reflexivity. Qed.

Example scenario_4 :
  created (calls (run windowHost clickHandler [mkTab 1 Undefined])) = [].
Proof. reflexivity. Qed.

(** Two clicks whose queries both reach the host before either creation. *)
Example scenario_5 :
  created (fst (fst (eventLoop windowHost [0; 1; 0; 1; 0; 1]%nat
                       [Pending clickHandler; Pending clickHandler]
                       [mkTab 1 (Str atest)])))
  = [Str atest_target; Str atest_target].
Proof. reflexivity. Qed.

(** Were the second click to come after the first one's tab has opened and
    taken the focus, it would share the address of that new tab. *)
Example second_click_after_focus :
  created (fst (fst (eventLoop windowHost [0; 0; 0; 1; 1; 1]%nat
                       [Pending clickHandler; Pending clickHandler]
                       [mkTab 1 (Str atest)])))
  = [Str atest_target;
     Str (js "https://curaq.pages.dev/share?url=https%3A%2F%2Fcuraq.pages.dev%2Fshare%3Furl%3Dhttps%253A%252F%252Fa.test%252F")].
Proof. reflexivity. Qed.

Example main_registers :
  option_map (fun d => map (@length _) (map DOM.listeners d))
    (match main [DOM.mkElement (js "title") None [];
                 DOM.mkElement (js "share-btn") None []] with
     | Normal d => Some d
     | Throw _ => None
     end)
  = Some [0%nat; 1%nat].
Proof. reflexivity. Qed.

(** Clicks on the heading, the button, the label inside the button and the
    second element of the same id, after the script has run: the handler
    runs for the button and for what is inside it. *)
Example clicks_after_main :
  match main popupDocument with
  | Normal doc' => map (fun j => length (click doc' j)) [0; 1; 2; 3]%nat
  | Throw _ => []
  end = [0; 1; 1; 0]%nat.
Proof. reflexivity. Qed.

Lemma forallb_upto (P : Z -> bool) (n : nat) :
  forallb P (upto n) = true -> forall x, 0 <= x < Z.of_nat n -> P x = true.
Proof.
  induction n as [|k IH]; intros H x Hx; [lia|].
  cbn [upto forallb] in H. apply andb_prop in H as [H0 H1].
  destruct (Z.eq_dec x (Z.of_nat k)) as [->|]; auto. apply IH; auto; lia.
Qed.

Module URIFacts.
Import URI.

Ltac arith := Z.div_mod_to_equations; lia.

(** Replaces the comparisons of the goal that the context decides by
    their value. *)
Ltac settle_leb :=
  repeat match goal with
  | |- context [?a <=? ?b] =>
      first [ replace (a <=? b) with true by (symmetry; apply Z.leb_le; arith)
            | replace (a <=? b) with false by (symmetry; apply Z.leb_gt; arith) ]
  | |- context [?a <? ?b] =>
      first [ replace (a <? b) with true by (symmetry; apply Z.ltb_lt; arith)
            | replace (a <? b) with false by (symmetry; apply Z.ltb_ge; arith) ]
  end.

(** *** Hexadecimal digits *)

Lemma hexValue_hexDigit n : 0 <= n < 16 -> hexValue (hexDigit n) = Some n.
Proof.
  intros H. unfold hexValue, hexDigit.
  destruct (Z.ltb_spec n 10); settle_leb; cbn [andb]; f_equal; lia.
Qed.

Lemma shiftr4 b : Z.shiftr b 4 = b / 16.
Proof. now rewrite Z.shiftr_div_pow2 by lia. Qed.

Lemma ParseHexOctet_percent b :
  0 <= b < 256 ->
  ParseHexOctet (hexDigit (Z.shiftr b 4)) (hexDigit (Z.land b 0xF)) = Some b.
Proof.
  intros H. unfold ParseHexOctet. rewrite shiftr4.
  change 0xF with (Z.ones 4). rewrite Z.land_ones by lia. change (2 ^ 4) with 16.
  rewrite !hexValue_hexDigit by arith. f_equal. arith.
Qed.

(** *** From bit operations to arithmetic *)

Lemma land_shiftl_low a b n :
  0 <= n -> 0 <= b < 2 ^ n -> Z.land (Z.shiftl a n) b = 0.
Proof.
  intros Hn Hb. apply Z.bits_inj'. intros m Hm.
  rewrite Z.land_spec, Z.bits_0.
  destruct (Z.ltb_spec m n).
  - now rewrite Z.shiftl_spec_low.
  - replace b with (b mod 2 ^ n) by (apply Z.mod_small; lia).
    rewrite Z.mod_pow2_bits_high by lia. apply andb_false_r.
Qed.

Lemma lor_shiftl_add a b n :
  0 <= n -> 0 <= b < 2 ^ n -> Z.lor (Z.shiftl a n) b = a * 2 ^ n + b.
Proof.
  intros Hn Hb. pose proof (land_shiftl_low a b n Hn Hb) as H0.
  rewrite <- Z.lxor_lor by exact H0.
  rewrite <- Z.add_nocarry_lxor by exact H0.
  now rewrite Z.shiftl_mul_pow2.
Qed.

(** A marker with its low [n] bits clear, or-ed with [n] bits of payload. *)
Lemma lor_marker (k n a x : Z) :
  0 <= n -> k = Z.shiftl a n -> 0 <= x < 2 ^ n -> Z.lor k x = k + x.
Proof.
  intros Hn -> Hx. rewrite lor_shiftl_add by assumption.
  now rewrite Z.shiftl_mul_pow2.
Qed.

Lemma lor_80 x : 0 <= x < 64 -> Z.lor 0x80 x = 128 + x.
Proof. intros. apply (lor_marker 128 6 2); [lia|reflexivity|exact H]. Qed.
Lemma lor_C0 x : 0 <= x < 32 -> Z.lor 0xC0 x = 192 + x.
Proof. intros. apply (lor_marker 192 5 6); [lia|reflexivity|exact H]. Qed.
Lemma lor_E0 x : 0 <= x < 16 -> Z.lor 0xE0 x = 224 + x.
Proof. intros. apply (lor_marker 224 4 14); [lia|reflexivity|exact H]. Qed.
Lemma lor_F0 x : 0 <= x < 8 -> Z.lor 0xF0 x = 240 + x.
Proof. intros. apply (lor_marker 240 3 30); [lia|reflexivity|exact H]. Qed.

Lemma land_3F x : Z.land x 0x3F = x mod 64.
Proof. change 0x3F with (Z.ones 6). now rewrite Z.land_ones by lia. Qed.
Lemma land_1F x : Z.land x 0x1F = x mod 32.
Proof. change 0x1F with (Z.ones 5). now rewrite Z.land_ones by lia. Qed.
Lemma land_0F x : Z.land x 0xF = x mod 16.
Proof. change 0xF with (Z.ones 4). now rewrite Z.land_ones by lia. Qed.
Lemma land_07 x : Z.land x 0x7 = x mod 8.
Proof. change 0x7 with (Z.ones 3). now rewrite Z.land_ones by lia. Qed.

(** *** The octets of a code point, and back *)

Lemma UTF8Encode_1 cp : cp <= 0x7F -> UTF8Encode cp = [cp].
Proof. intros H. unfold UTF8Encode. now settle_leb. Qed.

Lemma UTF8Encode_2 cp : 0x80 <= cp <= 0x7FF ->
  UTF8Encode cp = [192 + cp / 64; 128 + cp mod 64].
Proof.
  intros H. unfold UTF8Encode. settle_leb.
  rewrite land_3F, Z.shiftr_div_pow2 by lia. change (2 ^ 6) with 64.
  now rewrite lor_C0, lor_80 by arith.
Qed.

Lemma UTF8Encode_3 cp : 0x800 <= cp <= 0xFFFF ->
  UTF8Encode cp = [224 + cp / 4096; 128 + (cp / 64) mod 64; 128 + cp mod 64].
Proof.
  intros H. unfold UTF8Encode. settle_leb.
  rewrite !land_3F, !Z.shiftr_div_pow2 by lia.
  change (2 ^ 6) with 64. change (2 ^ 12) with 4096.
  now rewrite lor_E0, !lor_80 by arith.
Qed.

Lemma UTF8Encode_4 cp : 0x10000 <= cp <= 0x10FFFF ->
  UTF8Encode cp =
  [240 + cp / 262144; 128 + (cp / 4096) mod 64; 128 + (cp / 64) mod 64; 128 + cp mod 64].
Proof.
  intros H. unfold UTF8Encode. settle_leb.
  rewrite !land_3F, !Z.shiftr_div_pow2 by lia.
  change (2 ^ 6) with 64. change (2 ^ 12) with 4096. change (2 ^ 18) with 262144.
  now rewrite lor_F0, !lor_80 by arith.
Qed.

Lemma UTF8Encode_octets cp : 0 <= cp <= 0x10FFFF ->
  Forall (fun b => 0 <= b < 256) (UTF8Encode cp).
Proof.
  intros H.
  destruct (Z_le_gt_dec cp 0x7F);
    [rewrite UTF8Encode_1 by lia; repeat constructor; lia|].
  destruct (Z_le_gt_dec cp 0x7FF);
    [rewrite UTF8Encode_2 by lia; repeat constructor; arith|].
  destruct (Z_le_gt_dec cp 0xFFFF);
    [rewrite UTF8Encode_3 by lia; repeat constructor; arith|].
  rewrite UTF8Encode_4 by lia; repeat constructor; arith.
Qed.

Lemma UTF8Decode_Encode_2 cp : 0x80 <= cp <= 0x7FF ->
  UTF8Decode (UTF8Encode cp) = Some cp.
Proof.
  intros H. rewrite UTF8Encode_2 by exact H. unfold UTF8Decode, isContinuation.
  rewrite land_1F, land_3F.
  replace ((192 + cp / 64) mod 32) with (cp / 64) by arith.
  replace ((128 + cp mod 64) mod 64) with (cp mod 64) by arith.
  rewrite lor_shiftl_add by arith.
  replace (cp / 64 * 2 ^ 6 + cp mod 64) with cp by arith.
  now settle_leb.
Qed.

Lemma UTF8Decode_Encode_3 cp : 0x800 <= cp <= 0xFFFF ->
  ~ (0xD800 <= cp <= 0xDFFF) ->
  UTF8Decode (UTF8Encode cp) = Some cp.
Proof.
  intros H Hs. rewrite UTF8Encode_3 by exact H. unfold UTF8Decode, isContinuation.
  rewrite land_0F, !land_3F.
  replace ((224 + cp / 4096) mod 16) with (cp / 4096) by arith.
  replace ((128 + cp / 64 mod 64) mod 64) with (cp / 64 mod 64) by arith.
  replace ((128 + cp mod 64) mod 64) with (cp mod 64) by arith.
  rewrite (lor_shiftl_add (cp / 64 mod 64)) by arith.
  rewrite lor_shiftl_add by arith.
  replace (cp / 4096 * 2 ^ 12 + (cp / 64 mod 64 * 2 ^ 6 + cp mod 64)) with cp
    by arith.
  destruct (Z_lt_ge_dec cp 0xD800); now settle_leb.
Qed.

Lemma UTF8Decode_Encode_4 cp : 0x10000 <= cp <= 0x10FFFF ->
  UTF8Decode (UTF8Encode cp) = Some cp.
Proof.
  intros H. rewrite UTF8Encode_4 by exact H. unfold UTF8Decode, isContinuation.
  rewrite land_07, !land_3F.
  replace ((240 + cp / 262144) mod 8) with (cp / 262144) by arith.
  replace ((128 + cp / 4096 mod 64) mod 64) with (cp / 4096 mod 64) by arith.
  replace ((128 + cp / 64 mod 64) mod 64) with (cp / 64 mod 64) by arith.
  replace ((128 + cp mod 64) mod 64) with (cp mod 64) by arith.
  rewrite (lor_shiftl_add (cp / 64 mod 64)) by arith.
  rewrite (lor_shiftl_add (cp / 4096 mod 64)) by arith.
  rewrite lor_shiftl_add by arith.
  replace (cp / 262144 * 2 ^ 18 +
           (cp / 4096 mod 64 * 2 ^ 12 + (cp / 64 mod 64 * 2 ^ 6 + cp mod 64)))
    with cp by arith.
  now settle_leb.
Qed.

(** *** Decoding what [Encode] emits for one code point *)

Lemma cmap_Normal {A B} (f : A -> B) (c : completion A) (b : B) :
  cmap f c = Normal b -> exists a, c = Normal a /\ b = f a.
Proof.
  destruct c as [a|e]; cbn; intros H; [|discriminate].
  exists a. split; congruence.
Qed.

Lemma Decode_plain C rest :
  C <> 37 -> Decode (C :: rest) = cmap (cons C) (Decode rest).
Proof.
  intros H. cbn [Decode]. destruct (Z.eqb_spec C 37); [contradiction|reflexivity].
Qed.

Lemma escapeAt_percent {A} b rest (k : Z -> jsstring -> completion A) :
  0 <= b < 256 -> escapeAt (percentOctet b ++ rest) k = k b rest.
Proof.
  intros H. unfold percentOctet, escapeAt. cbn [app Z.eqb Pos.eqb].
  now rewrite ParseHexOctet_percent.
Qed.

Lemma Decode_percent b rest :
  0 <= b < 256 ->
  Decode (percentOctet b ++ rest) =
  match leadingOnes b with
  | 0%nat => cmap (cons b) (Decode rest)
  | 2%nat =>
      escapeAt rest (fun b1 r1 => emitOctets [b; b1] (Decode r1))
  | 3%nat =>
      escapeAt rest (fun b1 r1 =>
      escapeAt r1 (fun b2 r2 => emitOctets [b; b1; b2] (Decode r2)))
  | 4%nat =>
      escapeAt rest (fun b1 r1 =>
      escapeAt r1 (fun b2 r2 =>
      escapeAt r2 (fun b3 r3 => emitOctets [b; b1; b2; b3] (Decode r3))))
  | _ => Throw URIError
  end.
Proof.
  intros H. unfold percentOctet.
  cbn [app Decode Z.eqb Pos.eqb]. now rewrite ParseHexOctet_percent.
Qed.

Lemma leadingOnes_0 b : 0 <= b < 128 -> leadingOnes b = 0%nat.
Proof. intros H. unfold leadingOnes. now settle_leb. Qed.
Lemma leadingOnes_2 b : 192 <= b < 224 -> leadingOnes b = 2%nat.
Proof. intros H. unfold leadingOnes. now settle_leb. Qed.
Lemma leadingOnes_3 b : 224 <= b < 240 -> leadingOnes b = 3%nat.
Proof. intros H. unfold leadingOnes. now settle_leb. Qed.
Lemma leadingOnes_4 b : 240 <= b < 248 -> leadingOnes b = 4%nat.
Proof. intros H. unfold leadingOnes. now settle_leb. Qed.

(** Opens [percentOctets] of a list of given length into its escapes. *)
Ltac open_octets Hoct :=
  unfold percentOctets; cbn [flat_map]; rewrite app_nil_r, <- ?app_assoc;
  repeat match type of Hoct with
  | Forall _ (_ :: _) =>
      let O := fresh "O" in
      let T := fresh "T" in
      inversion Hoct as [|? ? O T]; subst; clear Hoct; rename T into Hoct
  end.

Lemma Decode_codepoint cp rest :
  scalar cp ->
  Decode (percentOctets (UTF8Encode cp) ++ rest) =
  cmap (app (UTF16EncodeCodePoint cp)) (Decode rest).
Proof.
  intros [Hr Hs]. pose proof (UTF8Encode_octets cp Hr) as Hoct.
  destruct (Z_le_gt_dec cp 0x7F) as [H1|H1].
  { rewrite UTF8Encode_1 in * by lia. open_octets Hoct.
    rewrite Decode_percent, leadingOnes_0 by lia.
    unfold UTF16EncodeCodePoint. now settle_leb. }
  destruct (Z_le_gt_dec cp 0x7FF) as [H2|H2].
  { pose proof (UTF8Decode_Encode_2 cp ltac:(lia)) as D.
    rewrite UTF8Encode_2 in * by lia. open_octets Hoct.
    rewrite Decode_percent, leadingOnes_2 by (assumption || arith).
    rewrite escapeAt_percent by assumption.
    unfold emitOctets. now rewrite D. }
  destruct (Z_le_gt_dec cp 0xFFFF) as [H3|H3].
  { pose proof (UTF8Decode_Encode_3 cp ltac:(lia) Hs) as D.
    rewrite UTF8Encode_3 in * by lia. open_octets Hoct.
    rewrite Decode_percent, leadingOnes_3 by (assumption || arith).
    rewrite !escapeAt_percent by assumption.
    unfold emitOctets. now rewrite D. }
  pose proof (UTF8Decode_Encode_4 cp ltac:(lia)) as D.
  rewrite UTF8Encode_4 in * by lia. open_octets Hoct.
  rewrite Decode_percent, leadingOnes_4 by (assumption || arith).
  rewrite !escapeAt_percent by assumption.
  unfold emitOctets. now rewrite D.
Qed.

(** *** Surrogates *)

Lemma isLeadingSurrogate_true c :
  isLeadingSurrogate c = true <-> 0xD800 <= c <= 0xDBFF.
Proof. unfold isLeadingSurrogate. rewrite andb_true_iff, !Z.leb_le. tauto. Qed.

Lemma isTrailingSurrogate_true c :
  isTrailingSurrogate c = true <-> 0xDC00 <= c <= 0xDFFF.
Proof. unfold isTrailingSurrogate. rewrite andb_true_iff, !Z.leb_le. tauto. Qed.

Lemma isLeadingSurrogate_false c :
  isLeadingSurrogate c = false <-> ~ (0xD800 <= c <= 0xDBFF).
Proof. rewrite <- isLeadingSurrogate_true. now destruct (isLeadingSurrogate c). Qed.

Lemma isTrailingSurrogate_false c :
  isTrailingSurrogate c = false <-> ~ (0xDC00 <= c <= 0xDFFF).
Proof. rewrite <- isTrailingSurrogate_true. now destruct (isTrailingSurrogate c). Qed.

Lemma UTF16_pair lead trail :
  isLeadingSurrogate lead = true -> isTrailingSurrogate trail = true ->
  scalar (UTF16SurrogatePairToCodePoint lead trail) /\
  UTF16EncodeCodePoint (UTF16SurrogatePairToCodePoint lead trail) = [lead; trail].
Proof.
  rewrite isLeadingSurrogate_true, isTrailingSurrogate_true. intros Hl Ht.
  unfold UTF16SurrogatePairToCodePoint, scalar. split; [lia|].
  unfold UTF16EncodeCodePoint. settle_leb.
  f_equal; [|f_equal]; arith.
Qed.

Lemma UTF16_bmp c :
  code_unit c -> isLeadingSurrogate c = false -> isTrailingSurrogate c = false ->
  scalar c /\ UTF16EncodeCodePoint c = [c].
Proof.
  unfold code_unit. rewrite isLeadingSurrogate_false, isTrailingSurrogate_false.
  intros Hc Hl Ht. split; [unfold scalar; lia|].
  unfold UTF16EncodeCodePoint. now settle_leb.
Qed.

(** *** The ways [Encode] consumes the head of a string *)

Section EncodeHead.

Variable extra : jsstring.
Variable C : Z.
Hypothesis escaped : contains (alwaysUnescaped ++ extra) C = false.

Lemma Encode_bmp rest :
  isLeadingSurrogate C = false -> isTrailingSurrogate C = false ->
  Encode extra (C :: rest) =
  cmap (app (percentOctets (UTF8Encode C))) (Encode extra rest).
Proof.
  intros Hl Ht. cbn [Encode]. rewrite escaped. unfold CodePointAt.
  now rewrite Hl, Ht.
Qed.

Lemma Encode_pair D rest :
  isLeadingSurrogate C = true -> isTrailingSurrogate D = true ->
  Encode extra (C :: D :: rest) =
  cmap (app (percentOctets (UTF8Encode (UTF16SurrogatePairToCodePoint C D))))
       (Encode extra rest).
Proof.
  intros Hl Ht. cbn [Encode]. rewrite escaped. unfold CodePointAt.
  rewrite Hl, Ht.
  assert (isTrailingSurrogate C = false) as ->; [|reflexivity].
  apply isTrailingSurrogate_false. apply isLeadingSurrogate_true in Hl. lia.
Qed.

Lemma Encode_lone_trail rest :
  isTrailingSurrogate C = true -> Encode extra (C :: rest) = Throw URIError.
Proof.
  intros Ht. cbn [Encode]. rewrite escaped. unfold CodePointAt. rewrite Ht.
  now rewrite andb_false_r.
Qed.

Lemma Encode_lone_lead_end :
  isLeadingSurrogate C = true -> Encode extra [C] = Throw URIError.
Proof.
  intros Hl. cbn [Encode]. rewrite escaped. unfold CodePointAt. rewrite Hl.
  cbn [negb andb]. now destruct (isTrailingSurrogate C).
Qed.

Lemma Encode_lone_lead D rest :
  isLeadingSurrogate C = true -> isTrailingSurrogate D = false ->
  Encode extra (C :: D :: rest) = Throw URIError.
Proof.
  intros Hl Ht. cbn [Encode]. rewrite escaped. unfold CodePointAt. rewrite Hl, Ht.
  cbn [negb andb]. now destruct (isTrailingSurrogate C).
Qed.

End EncodeHead.

Lemma Encode_unescaped extra C rest :
  contains (alwaysUnescaped ++ extra) C = true ->
  Encode extra (C :: rest) = cmap (cons C) (Encode extra rest).
Proof. intros H. cbn [Encode]. now rewrite H. Qed.

Lemma unescaped_ascii C :
  contains (alwaysUnescaped ++ []) C = true ->
  C <> 37 /\ isLeadingSurrogate C = false /\ isTrailingSurrogate C = false.
Proof.
  unfold contains. rewrite existsb_exists. intros [x [Hin Hx]].
  apply Z.eqb_eq in Hx. subst x.
  assert (F : forallb (fun c => negb (c =? 37) && negb (isLeadingSurrogate c)
                                && negb (isTrailingSurrogate c))
                (alwaysUnescaped ++ []) = true) by reflexivity.
  rewrite forallb_forall in F. specialize (F C Hin).
  apply andb_prop in F as [F F3]. apply andb_prop in F as [F1 F2].
  apply negb_true_iff in F1, F2, F3. apply Z.eqb_neq in F1. auto.
Qed.

(** *** [Encode] and its graph *)

Lemma Encodes_Encode (s r : jsstring) : Encodes s r -> Encode [] s = Normal r.
Proof.
  induction 1 as [|C s r Hu _ IH|C s r Hu Hl Ht _ IH|C D s r Hu Hl Ht _ IH].
  - reflexivity.
  - now rewrite Encode_unescaped, IH.
  - now rewrite Encode_bmp, IH.
  - now rewrite Encode_pair, IH.
Qed.

(** The case analysis of one iteration of the loop: either it throws, or
    it is one of the rules of the graph, going on with a shorter string. *)
Lemma Encode_step (C : Z) (rest r : jsstring) :
  Encode [] (C :: rest) = Normal r ->
  exists s' r', (length s' <= length rest)%nat /\ Encode [] s' = Normal r' /\
                (Encodes s' r' -> Encodes (C :: rest) r).
Proof.
  intros He.
  destruct (contains (alwaysUnescaped ++ []) C) eqn:Hu.
  { rewrite Encode_unescaped in He by exact Hu.
    apply cmap_Normal in He as [r' [He ->]].
    exists rest, r'. split; [lia|]. split; [exact He|]. now constructor. }
  destruct (isTrailingSurrogate C) eqn:Ht.
  { rewrite Encode_lone_trail in He by assumption. discriminate. }
  destruct (isLeadingSurrogate C) eqn:Hl.
  - destruct rest as [|D rest'].
    { rewrite Encode_lone_lead_end in He by assumption. discriminate. }
    destruct (isTrailingSurrogate D) eqn:HtD.
    2:{ rewrite Encode_lone_lead in He by assumption. discriminate. }
    rewrite Encode_pair in He by assumption.
    apply cmap_Normal in He as [r' [He ->]].
    exists rest', r'. split; [cbn; lia|]. split; [exact He|]. now constructor.
  - rewrite Encode_bmp in He by assumption.
    apply cmap_Normal in He as [r' [He ->]].
    exists rest, r'. split; [lia|]. split; [exact He|]. now constructor.
Qed.

Lemma Encode_Encodes (s r : jsstring) : Encode [] s = Normal r -> Encodes s r.
Proof.
  remember (length s) as n eqn:Hn.
  assert (Hlen : (length s <= n)%nat) by lia. clear Hn.
  revert s r Hlen. induction n as [|n IH]; intros s r Hlen He.
  - destruct s; [|cbn in Hlen; lia]. cbn in He. injection He as <-. constructor.
  - destruct s as [|C rest]; [cbn in He; injection He as <-; constructor|].
    cbn [length] in Hlen.
    destruct (Encode_step C rest r He) as (s' & r' & Hs' & He' & Hk).
    apply Hk, IH; [lia|exact He'].
Qed.

(** *** Round trip *)

Lemma Encodes_Decode (s r : jsstring) :
  Encodes s r -> Forall code_unit s -> Decode r = Normal s.
Proof.
  induction 1 as [|C s r Hu _ IH|C s r Hu Hl Ht _ IH|C D s r Hu Hl Ht _ IH];
    intros Hcu.
  - reflexivity.
  - inversion Hcu; subst. destruct (unescaped_ascii C Hu) as [H37 _].
    now rewrite Decode_plain, IH.
  - inversion Hcu as [|? ? HC Hs]; subst.
    destruct (UTF16_bmp C HC Hl Ht) as [Hsc E].
    rewrite Decode_codepoint, IH by assumption. cbn [cmap cbind]. now rewrite E.
  - inversion Hcu as [|? ? HC Hs]; subst. inversion Hs; subst.
    destruct (UTF16_pair C D Hl Ht) as [Hsc E].
    rewrite Decode_codepoint, IH by assumption. cbn [cmap cbind]. now rewrite E.
Qed.

Lemma Decode_Encode (s r : jsstring) :
  Forall code_unit s -> Encode [] s = Normal r -> Decode r = Normal s.
Proof. intros Hcu He. apply Encodes_Decode; [now apply Encode_Encodes|exact Hcu]. Qed.

(** *** [Encode] is defined exactly on the well-formed strings *)

Lemma Encodes_wellFormed (s r : jsstring) : Encodes s r -> isWellFormed s = true.
Proof.
  induction 1 as [|C s r Hu _ IH|C s r Hu Hl Ht _ IH|C D s r Hu Hl Ht _ IH].
  - reflexivity.
  - destruct (unescaped_ascii C Hu) as (_ & Hl & Ht).
    cbn [isWellFormed]. now rewrite Hl, Ht.
  - cbn [isWellFormed]. now rewrite Hl, Ht.
  - cbn [isWellFormed]. now rewrite Hl, Ht.
Qed.

Lemma wellFormed_Encodes (s : jsstring) :
  isWellFormed s = true -> exists r, Encodes s r.
Proof.
  remember (length s) as n eqn:Hn.
  assert (Hlen : (length s <= n)%nat) by lia. clear Hn.
  revert s Hlen. induction n as [|n IH]; intros s Hlen Hwf.
  { destruct s; [|cbn in Hlen; lia]. exists []. constructor. }
  destruct s as [|C rest]; [exists []; constructor|].
  cbn [length] in Hlen. cbn [isWellFormed] in Hwf.
  destruct (contains (alwaysUnescaped ++ []) C) eqn:Hu.
  { destruct (unescaped_ascii C Hu) as (_ & Hl & Ht).
    rewrite Hl, Ht in Hwf. cbn [negb andb] in Hwf.
    destruct (IH rest ltac:(lia) Hwf) as [r Hr].
    eexists. apply Encodes_unescaped; eassumption. }
  destruct (isLeadingSurrogate C) eqn:Hl.
  - destruct rest as [|D rest']; [discriminate|].
    apply andb_prop in Hwf as [HtD Hwf]. cbn [length] in Hlen.
    destruct (IH rest' ltac:(lia) Hwf) as [r Hr].
    eexists. apply Encodes_pair; eassumption.
  - apply andb_prop in Hwf as [Ht Hwf]. apply negb_true_iff in Ht.
    destruct (IH rest ltac:(lia) Hwf) as [r Hr].
    eexists. apply Encodes_bmp; eassumption.
Qed.

Lemma Encode_defined (s : jsstring) :
  isWellFormed s = true -> exists r, Encode [] s = Normal r.
Proof.
  intros Hwf. destruct (wellFormed_Encodes s Hwf) as [r Hr].
  exists r. now apply Encodes_Encode.
Qed.

Lemma Encode_wellFormed (s r : jsstring) :
  Encode [] s = Normal r -> isWellFormed s = true.
Proof. intros He. eapply Encodes_wellFormed, Encode_Encodes, He. Qed.

(** Every abrupt completion of [Encode] is a [URIError]. *)
Lemma Encode_throws_URIError (e : JSError) : forall (n : nat) (s extra : jsstring),
  (length s <= n)%nat -> Encode extra s = Throw e -> e = URIError.
Proof.
  induction n as [|n IH]; intros s extra Hlen He.
  { destruct s; [discriminate|cbn in Hlen; lia]. }
  destruct s as [|C rest]; [discriminate|]. cbn [length] in Hlen.
  cbn [Encode] in He.
  destruct (contains (alwaysUnescaped ++ extra) C).
  { destruct (Encode extra rest) eqn:E; [discriminate|].
    cbn in He. apply (IH rest extra); [lia|]. congruence. }
  destruct (IsUnpairedSurrogate (CodePointAt C rest)); [congruence|].
  match type of He with cmap _ (Encode extra ?next) = _ =>
    assert (Hn : (length next <= n)%nat);
    [|destruct (Encode extra next) eqn:E; [discriminate|];
      cbn in He; apply (IH next extra Hn); congruence]
  end.
  destruct (CodeUnitCount (CodePointAt C rest)) as [|[|[|k]]];
    destruct rest; cbn [length] in *; lia.
Qed.

Lemma Encode_throws (s : jsstring) (e : JSError) :
  Encode [] s = Throw e -> e = URIError /\ isWellFormed s = false.
Proof.
  intros He. split.
  - apply (Encode_throws_URIError e (length s) s []); [lia|exact He].
  - destruct (isWellFormed s) eqn:W; [|reflexivity].
    destruct (Encode_defined s W) as [r Hr]. congruence.
Qed.

(** *** The alphabet of the output *)

Lemma hexDigit_alphabet n :
  0 <= n < 16 -> contains outputAlphabet (hexDigit n) = true.
Proof.
  apply (forallb_upto (fun n => contains outputAlphabet (hexDigit n)) 16).
  reflexivity.
Qed.

Lemma percentOctets_alphabet octets :
  Forall (fun b => 0 <= b < 256) octets ->
  Forall (fun c => contains outputAlphabet c = true) (percentOctets octets).
Proof.
  induction 1 as [|b bs Hb _ IH]; [constructor|].
  unfold percentOctets. cbn [flat_map]. apply Forall_app. split; [|exact IH].
  unfold percentOctet. repeat constructor.
  - apply hexDigit_alphabet. rewrite shiftr4. arith.
  - apply hexDigit_alphabet. rewrite land_0F. arith.
Qed.

Lemma unescaped_alphabet C :
  contains (alwaysUnescaped ++ []) C = true -> contains outputAlphabet C = true.
Proof.
  unfold contains, outputAlphabet. rewrite app_nil_r, existsb_app.
  now intros ->.
Qed.

Lemma Encodes_alphabet (s r : jsstring) :
  Encodes s r -> Forall code_unit s ->
  Forall (fun c => contains outputAlphabet c = true) r.
Proof.
  induction 1 as [|C s r Hu _ IH|C s r Hu Hl Ht _ IH|C D s r Hu Hl Ht _ IH];
    intros Hcu.
  - constructor.
  - inversion Hcu; subst. constructor; [now apply unescaped_alphabet|auto].
  - inversion Hcu as [|? ? HC Hs]; subst.
    destruct (UTF16_bmp C HC Hl Ht) as [[Hsc _] _].
    apply Forall_app. split; [|auto].
    apply percentOctets_alphabet, UTF8Encode_octets, Hsc.
  - inversion Hcu as [|? ? HC Hs]; subst. inversion Hs; subst.
    destruct (UTF16_pair C D Hl Ht) as [[Hsc _] _].
    apply Forall_app. split; [|auto].
    apply percentOctets_alphabet, UTF8Encode_octets, Hsc.
Qed.

Lemma Encode_alphabet (s r : jsstring) :
  Forall code_unit s -> Encode [] s = Normal r ->
  Forall (fun c => contains outputAlphabet c = true) r.
Proof. intros Hcu He. apply (Encodes_alphabet s r); [now apply Encode_Encodes|exact Hcu]. Qed.

Lemma alphabet_absent (c : Z) (r : jsstring) :
  contains outputAlphabet c = false ->
  Forall (fun c => contains outputAlphabet c = true) r -> ~ In c r.
Proof.
  intros Hc Hr Hin. rewrite Forall_forall in Hr. specialize (Hr c Hin). congruence.
Qed.

(** *** [Encode] works code point by code point *)

Lemma Encodes_app (s1 r1 s2 r2 : jsstring) :
  Encodes s1 r1 -> Encodes s2 r2 -> Encodes (s1 ++ s2) (r1 ++ r2).
Proof.
  induction 1 as [|C s r Hu _ IH|C s r Hu Hl Ht _ IH|C D s r Hu Hl Ht _ IH];
    intros H2; cbn [app]; rewrite <- ?app_assoc.
  - exact H2.
  - apply Encodes_unescaped; auto.
  - apply Encodes_bmp; auto.
  - apply Encodes_pair; auto.
Qed.

Lemma Encode_app (s1 r1 s2 r2 : jsstring) :
  Encode [] s1 = Normal r1 -> Encode [] s2 = Normal r2 ->
  Encode [] (s1 ++ s2) = Normal (r1 ++ r2).
Proof.
  intros H1 H2. apply Encodes_Encode, Encodes_app; now apply Encode_Encodes.
Qed.

End URIFacts.

(** ** Facts about reading a parameter back *)

Module QueryFacts.
Import Query.

Lemma cut_absent sep (s : jsstring) : ~ In sep s -> cut sep s = (s, None).
Proof.
  induction s as [|c s IH]; intros H; [reflexivity|].
  cbn [cut]. destruct (Z.eqb_spec c sep) as [->|Hne].
  - exfalso. apply H. now left.
  - rewrite IH by (intros Hin; apply H; now right). reflexivity.
Qed.

Lemma cut_found sep (a b : jsstring) :
  ~ In sep a -> cut sep (a ++ sep :: b) = (a, Some b).
Proof.
  induction a as [|c a IH]; intros H; cbn [app cut].
  - now rewrite Z.eqb_refl.
  - destruct (Z.eqb_spec c sep) as [->|Hne].
    + exfalso. apply H. now left.
    + rewrite IH by (intros Hin; apply H; now right). reflexivity.
Qed.

Lemma split_absent sep (s : jsstring) : ~ In sep s -> split sep s = [s].
Proof.
  induction s as [|c s IH]; intros H; [reflexivity|].
  cbn [split]. destruct (Z.eqb_spec c sep) as [->|Hne].
  - exfalso. apply H. now left.
  - rewrite IH by (intros Hin; apply H; now right). reflexivity.
Qed.

Lemma not_in_app {A} (x : A) (a b : list A) :
  ~ In x a -> ~ In x b -> ~ In x (a ++ b).
Proof. intros Ha Hb Hin. apply in_app_or in Hin. tauto. Qed.

Lemma not_in_js (c : Z) (s : jsstring) :
  URI.contains s c = false -> ~ In c s.
Proof.
  unfold URI.contains. intros H Hin.
  assert (existsb (Z.eqb c) s = true); [|congruence].
  apply existsb_exists. exists c. split; [exact Hin|apply Z.eqb_refl].
Qed.

(** The [url] parameter of a share address is the encoded value itself,
    as long as that value holds no ["#"] and no ["&"]. *)
Lemma param_share (enc : jsstring) :
  ~ In 35 enc -> ~ In 38 enc ->
  param (js "url") (share_prefix ++ enc) = Some enc.
Proof.
  intros H35 H38. unfold param, queryOf.
  rewrite (cut_absent 35)
    by (apply not_in_app; [apply not_in_js; reflexivity|exact H35]).
  cbn [fst].
  change share_prefix with (js "https://curaq.pages.dev/share" ++ 63 :: js "url=").
  rewrite <- app_assoc, <- app_comm_cons.
  rewrite cut_found by (apply not_in_js; reflexivity).
  cbn [snd].
  rewrite split_absent
    by (apply not_in_app; [apply not_in_js; reflexivity|exact H38]).
  cbn [lookup].
  change (js "url=") with (js "url" ++ [61]).
  rewrite <- app_assoc. cbn [app].
  change (117 :: 114 :: 108 :: 61 :: enc) with (js "url" ++ 61 :: enc).
  rewrite cut_found by (apply not_in_js; reflexivity).
  reflexivity.
Qed.

End QueryFacts.

(* ------------------------------------------------------------------ *)
(** * The click handler *)

Section Handler.

Context {World : Type} (h : Host World).

Lemma first_url_cons (tab : Tab) (rest : list Tab) :
  first_url (tab :: rest) = url tab.
Proof. reflexivity. Qed.

(** Under the guard the member access cannot throw. *)
Lemma member_url_guarded (tabs : list Tab) :
  ToBoolean (first_url tabs) = true ->
  member_url (firstOf tabs) = Normal (first_url tabs).
Proof. destruct tabs as [|tab rest]; [discriminate|reflexivity]. Qed.

(** What one invocation does, by the answers it gets. *)
Lemma run_clickHandler (w : World) :
  run h clickHandler w =
  match tabs_query h activeTabQuery w with
  | (Throw e, w') => mkOutcome [QueryCall activeTabQuery] (Throw e) w'
  | (Normal tabs, w') =>
      if ToBoolean (first_url tabs) then
        match URI.encodeURIComponent (first_url tabs) with
        | Throw e => mkOutcome [QueryCall activeTabQuery] (Throw e) w'
        | Normal encodedUrl =>
            let c := mkCreateProperties (Str (share_prefix ++ encodedUrl)) in
            match tabs_create h c w' with
            | (Normal _, w'') =>
                mkOutcome [QueryCall activeTabQuery; CreateCall c] (Normal tt) w''
            | (Throw e, w'') =>
                mkOutcome [QueryCall activeTabQuery; CreateCall c] (Throw e) w''
            end
        end
      else mkOutcome [QueryCall activeTabQuery] (Normal tt) w'
  end.
Proof.
  unfold clickHandler. cbn [abind run]. fold activeTabQuery.
  destruct (tabs_query h activeTabQuery w) as [[tabs|e] w']; [|reflexivity].
  cbn [abind]. fold (first_url tabs).
  destruct (ToBoolean (first_url tabs)) eqn:Ht; [|reflexivity].
  rewrite (member_url_guarded tabs Ht). cbn [eval abind].
  destruct (URI.encodeURIComponent (first_url tabs)) as [enc|e]; [|reflexivity].
  cbn [eval abind run].
  destruct (tabs_create h _ w') as [[t|e] w'']; reflexivity.
Qed.

(** With a truthy address the requests are decided by [encodeURIComponent]
    alone. *)
Lemma created_clickHandler (w w' : World) (tabs : list Tab) :
  tabs_query h activeTabQuery w = (Normal tabs, w') ->
  ToBoolean (first_url tabs) = true ->
  created (calls (run h clickHandler w)) =
  match URI.encodeURIComponent (first_url tabs) with
  | Normal encodedUrl => [Str (share_prefix ++ encodedUrl)]
  | Throw _ => []
  end.
Proof.
  intros Hq Ht. rewrite run_clickHandler, Hq, Ht.
  destruct (URI.encodeURIComponent (first_url tabs)) as [enc|e]; [|reflexivity].
  cbv zeta. destruct (tabs_create h _ w') as [[t|e] w'']; reflexivity.
Qed.

(** The handler adds one failure of its own to those of the host: the
    [URIError] of [encodeURIComponent]. The member access [tab.url] never
    throws, being under the guard. *)
Lemma clickHandler_errors (w : World) (e : JSError) :
  settled (run h clickHandler w) = Throw e ->
  fst (tabs_query h activeTabQuery w) = Throw e \/
  e = URIError \/
  exists c w', fst (tabs_create h c w') = Throw e.
Proof.
  rewrite run_clickHandler.
  destruct (tabs_query h activeTabQuery w) as [[tabs|e0] w'] eqn:Hq; cbn [fst].
  2:{ cbn. intros [= ->]. now left. }
  destruct (ToBoolean (first_url tabs)); [|discriminate].
  unfold URI.encodeURIComponent.
  destruct (URI.Encode [] (ToString (first_url tabs))) as [enc|e0] eqn:He.
  2:{ cbn. intros [= ->]. right. left.
      exact (proj1 (URIFacts.Encode_throws _ _ He)). }
  cbv zeta.
  destruct (tabs_create h _ w') as [[t|e0] w''] eqn:Hc; [discriminate|].
  cbn. intros [= ->]. right. right. eexists _, w'. now rewrite Hc.
Qed.

Lemma ToBoolean_Str (u : jsstring) : u <> [] -> ToBoolean (Str u) = true.
Proof. destruct u; [congruence|reflexivity]. Qed.

End Handler.

(* ------------------------------------------------------------------ *)
(** * The properties of the specification *)

(** ** The address that is opened *)

(** Outside the addresses a tab can have: the address of a tab is a
    serialised URL, which holds no unpaired surrogate; were a host to
    answer with such a string, [encodeURIComponent] would throw [URIError]
    and the handler would open no tab. *)
Lemma share_unpaired_surrogate_opens_nothing :
  url (mkTab 1 (Str [0xD800])) = Str [0xD800] /\
  [0xD800] <> [] /\ Forall code_unit [0xD800] /\
  created (calls (run windowHost clickHandler [mkTab 1 (Str [0xD800])])) = [] /\
  settled (run windowHost clickHandler [mkTab 1 (Str [0xD800])]) = Throw URIError /\
  world (run windowHost clickHandler [mkTab 1 (Str [0xD800])])
  = [mkTab 1 (Str [0xD800])].
Proof.
  repeat split; try reflexivity; try discriminate.
  repeat constructor; unfold code_unit; lia.
Qed.



(** ** The encoding *)

(** C2, as stated, fails: ["!"] is in the reserved set the claim lists,
    and [encodeURIComponent] leaves it as it is (likewise ['], [(], [)]
    and [*]). *)
Lemma encode_keeps_exclamation_mark :
  In 33 reservedSet /\
  URI.encodeURIComponent (Str [33]) = Normal [33] /\
  URI.encodeURIComponent (Str [33]) <> Normal (URI.percentOctet 33) /\
  URI.encodeURIComponent (Str (js "!'()*")) = Normal (js "!'()*").
Proof.
  split; [cbn; tauto|]. split; [reflexivity|]. split; [|reflexivity].
  discriminate.
Qed.

Lemma Encode_ascii_escaped (c : Z) (rest : jsstring) :
  URI.contains (URI.alwaysUnescaped ++ []) c = false -> 0 <= c < 128 ->
  URI.Encode [] (c :: rest) = cmap (app (URI.percentOctet c)) (URI.Encode [] rest).
Proof.
  intros Hu Hc. rewrite URIFacts.Encode_bmp; trivial.
  - rewrite URIFacts.UTF8Encode_1 by lia.
    unfold URI.percentOctets. cbn [flat_map]. now rewrite app_nil_r.
  - apply URIFacts.isLeadingSurrogate_false. lia.
  - apply URIFacts.isTrailingSurrogate_false. lia.
Qed.

Lemma escaped_set_facts (c : Z) :
  In c (escapedReserved ++ [space]) ->
  URI.contains (URI.alwaysUnescaped ++ []) c = false /\ 0 <= c < 128 /\
  URI.contains outputAlphabet c = false.
Proof.
  intros Hin.
  assert (F : forallb (fun c => negb (URI.contains (URI.alwaysUnescaped ++ []) c)
                                && (0 <=? c) && (c <? 128)
                                && negb (URI.contains outputAlphabet c))
                (escapedReserved ++ [space]) = true) by reflexivity.
  rewrite forallb_forall in F. specialize (F c Hin).
  apply andb_prop in F as [F F4]. apply andb_prop in F as [F F3].
  apply andb_prop in F as [F1 F2].
  apply negb_true_iff in F1, F4. apply Z.leb_le in F2. apply Z.ltb_lt in F3.
  auto.
Qed.

Lemma kept_set_facts (c : Z) :
  In c (unreservedSet ++ keptReserved) ->
  URI.contains (URI.alwaysUnescaped ++ []) c = true.
Proof.
  intros Hin.
  assert (F : forallb (URI.contains (URI.alwaysUnescaped ++ []))
                (unreservedSet ++ keptReserved) = true) by reflexivity.
  rewrite forallb_forall in F. exact (F c Hin).
Qed.

(** C2 (amended): in any string it can encode, [encodeURIComponent]
    replaces each of [: / ? # [ ] @ $ & + , ; =] and the space by its
    ["%XX"] escape, so that none of them occurs in its output, and copies
    each unreserved character (A-Z, a-z, 0-9, [-], [_], [.], [~]) and each
    of [! ' ( ) *] unchanged. *)
Theorem encode_escapes_reserved_keeps_unreserved :
  forall (c : Z) (s1 s2 r1 r2 : jsstring),
    URI.encodeURIComponent (Str s1) = Normal r1 ->
    URI.encodeURIComponent (Str s2) = Normal r2 ->
    (In c (escapedReserved ++ [space]) ->
     URI.encodeURIComponent (Str (s1 ++ c :: s2))
     = Normal (r1 ++ URI.percentOctet c ++ r2) /\
     ~ In c (URI.percentOctet c) /\
     (Forall code_unit s1 -> Forall code_unit s2 ->
      ~ In c (r1 ++ URI.percentOctet c ++ r2)))
    /\
    (In c (unreservedSet ++ keptReserved) ->
     URI.encodeURIComponent (Str (s1 ++ c :: s2)) = Normal (r1 ++ c :: r2)).
Proof.
  unfold URI.encodeURIComponent. cbn [ToString].
  intros c s1 s2 r1 r2 H1 H2. split; intros Hin.
  - destruct (escaped_set_facts c Hin) as (Hu & Hc & Ha).
    assert (E : URI.Encode [] (s1 ++ c :: s2)
                = Normal (r1 ++ URI.percentOctet c ++ r2)).
    { apply URIFacts.Encode_app; [exact H1|].
      rewrite Encode_ascii_escaped, H2 by assumption. reflexivity. }
    split; [exact E|].
    assert (P : Forall (fun x => URI.contains outputAlphabet x = true)
                  (URI.percentOctet c)).
    { assert (Q := URIFacts.percentOctets_alphabet [c]
                     ltac:(repeat constructor; lia)).
      unfold URI.percentOctets in Q. cbn [flat_map] in Q.
      rewrite app_nil_r in Q. exact Q. }
    split; [exact (URIFacts.alphabet_absent c _ Ha P)|].
    intros C1 C2. apply (URIFacts.alphabet_absent c _ Ha).
    apply (URIFacts.Encode_alphabet (s1 ++ c :: s2)); [|exact E].
    apply Forall_app. split; [exact C1|].
    constructor; [unfold code_unit; lia|exact C2].
  - pose proof (kept_set_facts c Hin) as Hu.
    apply URIFacts.Encode_app; [exact H1|].
    rewrite URIFacts.Encode_unescaped, H2 by exact Hu. reflexivity.
Qed.

Lemma encode_escapes_reserved_keeps_unreserved_witness :
  URI.encodeURIComponent (Str (js "a" ++ 63 :: js "b"))
  = Normal (js "a" ++ URI.percentOctet 63 ++ js "b") /\
  URI.encodeURIComponent (Str (js "a" ++ 126 :: js "b"))
  = Normal (js "a" ++ 126 :: js "b").
Proof.
  split.
  - refine (proj1 (proj1 (encode_escapes_reserved_keeps_unreserved
                            63 (js "a") (js "b") (js "a") (js "b")
                            eq_refl eq_refl) _)).
    cbn. tauto.
  - refine (proj2 (encode_escapes_reserved_keeps_unreserved
                     126 (js "a") (js "b") (js "a") (js "b")
                     eq_refl eq_refl) _).
    apply in_or_app. left. unfold unreservedSet. cbn. tauto.
Defined.

(** ** The round trip *)

(** C3: whatever address the handler asks [browser.tabs.create] to open
    for a tab address [u], the value of its [url] query parameter
    percent-decodes to exactly [u]; and such an address is produced for
    every non-empty [u] without unpaired surrogates, whichever reserved or
    non-ASCII characters it holds. *)
Theorem share_url_param_round_trip :
  forall (World : Type) (h : Host World) (w w' : World)
         (tab : Tab) (rest : list Tab) (u : jsstring),
    Forall code_unit u ->
    tabs_query h activeTabQuery w = (Normal (tab :: rest), w') ->
    url tab = Str u ->
    (forall target,
       In (Str target) (created (calls (run h clickHandler w))) ->
       exists encodedUrl,
         Query.param (js "url") target = Some encodedUrl /\
         URI.decodeURIComponent encodedUrl = Normal u)
    /\
    (u <> [] -> isWellFormed u = true ->
     exists target, created (calls (run h clickHandler w)) = [Str target]).
Proof.
  intros World h w w' tab rest u Hcu Hq Hu.
  assert (Hf : first_url (tab :: rest) = Str u) by exact Hu.
  split.
  - intros target Hin.
    destruct (ToBoolean (first_url (tab :: rest))) eqn:Ht.
    2:{ rewrite run_clickHandler, Hq, Ht in Hin. contradiction. }
    rewrite (created_clickHandler h w w' _ Hq Ht), Hf in Hin.
    unfold URI.encodeURIComponent in Hin. cbn [ToString] in Hin.
    destruct (URI.Encode [] u) as [enc|e] eqn:He; [|contradiction].
    destruct Hin as [Heq|[]]. injection Heq as <-.
    exists enc.
    pose proof (URIFacts.Encode_alphabet u enc Hcu He) as Ha.
    split.
    + apply QueryFacts.param_share;
        apply (fun H => URIFacts.alphabet_absent _ enc H Ha); reflexivity.
    + apply URIFacts.Decode_Encode; assumption.
  - intros Hne Hwf.
    pose proof (ToBoolean_Str u Hne) as Ht. rewrite <- Hf in Ht.
    destruct (URIFacts.Encode_defined u Hwf) as [enc He].
    exists (share_prefix ++ enc).
    rewrite (created_clickHandler h w w' _ Hq Ht), Hf.
    unfold URI.encodeURIComponent. cbn [ToString]. now rewrite He.
Qed.

Lemma share_url_param_round_trip_witness :
  exists encodedUrl,
    Query.param (js "url")
      (js "https://curaq.pages.dev/share?url=https%3A%2F%2Fa.test%2F%3Fq%3D1%262%23x%20y%E6%97%A5%F0%9F%98%80")
    = Some encodedUrl /\
    URI.decodeURIComponent encodedUrl
    = Normal (js "https://a.test/?q=1&2#x y" ++ [0x65E5; 0xD83D; 0xDE00]).
Proof.
  refine (proj1 (share_url_param_round_trip (list Tab) windowHost
            [mkTab 1 (Str (js "https://a.test/?q=1&2#x y" ++ [0x65E5; 0xD83D; 0xDE00]))]
            [mkTab 1 (Str (js "https://a.test/?q=1&2#x y" ++ [0x65E5; 0xD83D; 0xDE00]))]
            (mkTab 1 (Str (js "https://a.test/?q=1&2#x y" ++ [0x65E5; 0xD83D; 0xDE00])))
            [] (js "https://a.test/?q=1&2#x y" ++ [0x65E5; 0xD83D; 0xDE00])
            _ eq_refl eq_refl) _ _).
  - repeat constructor; unfold code_unit; lia.
  - left. reflexivity.
Defined.

(** ** No address, no request *)

(** C4: when the query resolves with no tab, or with a first tab whose
    address is absent or the empty string, the handler issues no
    tab-creation request (its only call is the query), its promise fulfils,
    and the host is left as the query left it. *)
Theorem share_noop_without_address :
  forall (World : Type) (h : Host World) (w w' : World) (tabs : list Tab),
    tabs_query h activeTabQuery w = (Normal tabs, w') ->
    (tabs = [] \/
     exists tab rest, tabs = tab :: rest /\ (url tab = Undefined \/ url tab = Str [])) ->
    created (calls (run h clickHandler w)) = [] /\
    run h clickHandler w = mkOutcome [QueryCall activeTabQuery] (Normal tt) w'.
Proof.
  intros World h w w' tabs Hq Hcase.
  assert (Ht : ToBoolean (first_url tabs) = false).
  { destruct Hcase as [->|(tab & rest & -> & [Hu|Hu])];
      [reflexivity|rewrite first_url_cons; now rewrite Hu..]. }
  rewrite run_clickHandler, Hq, Ht. split; reflexivity.
Qed.

Lemma share_noop_without_address_witness :
  (created (calls (run windowHost clickHandler [])) = [] /\
   run windowHost clickHandler []
   = mkOutcome [QueryCall activeTabQuery] (Normal tt) []) /\
  (created (calls (run windowHost clickHandler [mkTab 1 Undefined])) = [] /\
   run windowHost clickHandler [mkTab 1 Undefined]
   = mkOutcome [QueryCall activeTabQuery] (Normal tt) [mkTab 1 Undefined]) /\
  (created (calls (run windowHost clickHandler [mkTab 1 (Str [])])) = [] /\
   run windowHost clickHandler [mkTab 1 (Str [])]
   = mkOutcome [QueryCall activeTabQuery] (Normal tt) [mkTab 1 (Str [])]).
Proof.
  split; [|split].
  - exact (share_noop_without_address (list Tab) windowHost [] [] []
             eq_refl (or_introl eq_refl)).
  - exact (share_noop_without_address (list Tab) windowHost
             [mkTab 1 Undefined] [mkTab 1 Undefined] [mkTab 1 Undefined] eq_refl
             (or_intror (ex_intro _ (mkTab 1 Undefined)
                (ex_intro _ [] (conj eq_refl (or_introl eq_refl)))))).
  - exact (share_noop_without_address (list Tab) windowHost
             [mkTab 1 (Str [])] [mkTab 1 (Str [])] [mkTab 1 (Str [])] eq_refl
             (or_intror (ex_intro _ (mkTab 1 (Str []))
                (ex_intro _ [] (conj eq_refl (or_intror eq_refl)))))).
Defined.

(** ** One request per successful invocation *)

(** C5: an invocation never issues more than one tab-creation request,
    and one that succeeds (the query resolved with a first tab that has a
    non-empty address, and the handler's promise fulfilled) issued exactly
    one, followed by nothing else. *)
Theorem share_exactly_one_request :
  forall (World : Type) (h : Host World) (w : World),
    (length (created (calls (run h clickHandler w))) <= 1)%nat /\
    (forall (w' : World) (tab : Tab) (rest : list Tab) (u : jsstring),
       tabs_query h activeTabQuery w = (Normal (tab :: rest), w') ->
       url tab = Str u -> u <> [] ->
       settled (run h clickHandler w) = Normal tt ->
       exists encodedUrl,
         URI.encodeURIComponent (Str u) = Normal encodedUrl /\
         calls (run h clickHandler w)
         = [QueryCall activeTabQuery;
            CreateCall (mkCreateProperties (Str (share_prefix ++ encodedUrl)))] /\
         length (created (calls (run h clickHandler w))) = 1%nat).
Proof.
  intros World h w. split.
  - rewrite run_clickHandler.
    destruct (tabs_query h activeTabQuery w) as [[tabs|e] w']; [|cbn; lia].
    destruct (ToBoolean (first_url tabs)); [|cbn; lia].
    destruct (URI.encodeURIComponent (first_url tabs)) as [enc|e]; [|cbn; lia].
    cbv zeta. destruct (tabs_create h _ w') as [[t|e] w'']; cbn; lia.
  - intros w' tab rest u Hq Hu Hne Hok.
    assert (Hf : first_url (tab :: rest) = Str u) by exact Hu.
    pose proof (ToBoolean_Str u Hne) as Ht. rewrite <- Hf in Ht.
    rewrite run_clickHandler, Hq, Ht, Hf in *.
    destruct (URI.encodeURIComponent (Str u)) as [enc|e]; [|discriminate].
    exists enc. split; [reflexivity|].
    cbv zeta in *. destruct (tabs_create h _ w') as [[t|e] w'']; [|discriminate].
    split; reflexivity.
Qed.

Lemma share_exactly_one_request_witness :
  exists encodedUrl,
    URI.encodeURIComponent (Str (js "https://a.test/")) = Normal encodedUrl /\
    calls (run windowHost clickHandler [mkTab 1 (Str (js "https://a.test/"))])
    = [QueryCall activeTabQuery;
       CreateCall (mkCreateProperties (Str (share_prefix ++ encodedUrl)))] /\
    length (created
      (calls (run windowHost clickHandler [mkTab 1 (Str (js "https://a.test/"))])))
    = 1%nat.
Proof.
  refine (proj2 (share_exactly_one_request (list Tab) windowHost
                   [mkTab 1 (Str (js "https://a.test/"))])
            [mkTab 1 (Str (js "https://a.test/"))]
            (mkTab 1 (Str (js "https://a.test/"))) [] (js "https://a.test/")
            eq_refl eq_refl _ eq_refl).
  discriminate.
Defined.

(** ** A rejected query *)

(** C6: when the host rejects the query, the handler issues no
    tab-creation request (the query is its only call) and its promise
    rejects with the reason the host gave. *)
Theorem share_query_rejection_opens_nothing :
  forall (World : Type) (h : Host World) (w w' : World) (e : JSError),
    tabs_query h activeTabQuery w = (Throw e, w') ->
    created (calls (run h clickHandler w)) = [] /\
    run h clickHandler w = mkOutcome [QueryCall activeTabQuery] (Throw e) w'.
Proof.
  intros World h w w' e Hq. rewrite run_clickHandler, Hq. split; reflexivity.
Qed.

Lemma share_query_rejection_opens_nothing_witness :
  created (calls (run (fixedHost (Throw (HostError (js "no window")))
                                 (Normal (mkTab 2 Undefined)))
                      clickHandler tt)) = [] /\
  run (fixedHost (Throw (HostError (js "no window"))) (Normal (mkTab 2 Undefined)))
      clickHandler tt
  = mkOutcome [QueryCall activeTabQuery] (Throw (HostError (js "no window"))) tt.
Proof.
  exact (share_query_rejection_opens_nothing unit
           (fixedHost (Throw (HostError (js "no window"))) (Normal (mkTab 2 Undefined)))
           tt tt (HostError (js "no window")) eq_refl).
Defined.

(** ** The non-ASCII scenario *)

(** C7: with the active tab at [https://example.com/] followed by the
    three characters U+65E5 U+672C U+8A9E, the one tab-creation request
    is for the address of the specification, the characters being
    percent-encoded from their UTF-8 octets. *)
Theorem share_nihongo :
  forall (World : Type) (h : Host World) (w w' : World)
         (tab : Tab) (rest : list Tab),
    tabs_query h activeTabQuery w = (Normal (tab :: rest), w') ->
    url tab = Str nihongo ->
    created (calls (run h clickHandler w)) =
    [Str (js "https://curaq.pages.dev/share?url=https%3A%2F%2Fexample.com%2F%E6%97%A5%E6%9C%AC%E8%AA%9E")].
Proof.
  intros World h w w' tab rest Hq Hu.
  assert (Hf : first_url (tab :: rest) = Str nihongo) by exact Hu.
  rewrite (created_clickHandler h w w' _ Hq) by (rewrite Hf; reflexivity).
  rewrite Hf. reflexivity.
Qed.

Lemma share_nihongo_witness :
  created (calls (run windowHost clickHandler [mkTab 7 (Str nihongo)])) =
  [Str (js "https://curaq.pages.dev/share?url=https%3A%2F%2Fexample.com%2F%E6%97%A5%E6%9C%AC%E8%AA%9E")].
Proof.
  exact (share_nihongo (list Tab) windowHost
           [mkTab 7 (Str nihongo)] [mkTab 7 (Str nihongo)]
           (mkTab 7 (Str nihongo)) [] eq_refl eq_refl).
Defined.

(** ** Independent invocations *)

Lemma created_app (a b : list Call) : created (a ++ b) = created a ++ created b.
Proof.
  induction a as [|[q|c] a IH]; cbn [app created]; [reflexivity|exact IH|].
  now rewrite IH.
Qed.

Section RapidClicks.

Context {World : Type} (h : Host World).

(** Every query finds the tab at [atest] in front. *)
Hypothesis stays :
  forall w, exists tab rest w',
    tabs_query h activeTabQuery w = (Normal (tab :: rest), w') /\
    url tab = Str atest.





Lemma requestedAll_settled (tasks : list Task) :
  forallb isSettled tasks = true -> requestedAll tasks = length tasks.
Proof.
  unfold requestedAll, list_sum.
  induction tasks as [|[p|c] tasks IH]; cbn [forallb isSettled andb]; intros H;
    [reflexivity|discriminate|].
  cbn [map fold_right requested length]. now rewrite IH.
Qed.


End RapidClicks.



(** ** Only the first tab counts *)

(** C9: the handler reads only the first element of the array the query
    resolves with: two hosts that differ in nothing but the tabs after the
    first get the same calls, the same settlement and end in the same
    state; and with an empty array the handler does what it does for a tab
    without address, that is nothing beyond the query. *)
Theorem share_first_tab_only :
  forall (World : Type) (h1 h2 : Host World) (w w' : World),
    (forall c x, tabs_create h1 c x = tabs_create h2 c x) ->
    (forall (tab : Tab) (rest1 rest2 : list Tab),
       tabs_query h1 activeTabQuery w = (Normal (tab :: rest1), w') ->
       tabs_query h2 activeTabQuery w = (Normal (tab :: rest2), w') ->
       run h1 clickHandler w = run h2 clickHandler w)
    /\
    (tabs_query h1 activeTabQuery w = (Normal [], w') ->
     run h1 clickHandler w = mkOutcome [QueryCall activeTabQuery] (Normal tt) w' /\
     forall (tab : Tab) (rest : list Tab),
       tabs_query h2 activeTabQuery w = (Normal (tab :: rest), w') ->
       url tab = Undefined ->
       run h1 clickHandler w = run h2 clickHandler w).
Proof.
  intros World h1 h2 w w' Hc. split.
  - intros tab rest1 rest2 H1 H2. rewrite !run_clickHandler, H1, H2.
    rewrite !first_url_cons. destruct (ToBoolean (url tab)); [|reflexivity].
    destruct (URI.encodeURIComponent (url tab)) as [enc|e]; [|reflexivity].
    cbv zeta. now rewrite Hc.
  - intros H1. split.
    + rewrite run_clickHandler, H1. reflexivity.
    + intros tab rest H2 Hu. rewrite !run_clickHandler, H1, H2.
      rewrite first_url_cons, Hu. reflexivity.
Qed.

Lemma share_first_tab_only_witness :
  run (fixedHost (Normal [mkTab 1 (Str atest); mkTab 2 (Str nihongo)])
                 (Normal (mkTab 3 Undefined))) clickHandler tt
  = run (fixedHost (Normal [mkTab 1 (Str atest)]) (Normal (mkTab 3 Undefined)))
        clickHandler tt
  /\
  run (fixedHost (Normal []) (Normal (mkTab 3 Undefined))) clickHandler tt
  = run (fixedHost (Normal [mkTab 1 Undefined; mkTab 2 (Str nihongo)])
                   (Normal (mkTab 3 Undefined))) clickHandler tt.
Proof.
  split.
  - exact (proj1 (share_first_tab_only unit
             (fixedHost (Normal [mkTab 1 (Str atest); mkTab 2 (Str nihongo)])
                        (Normal (mkTab 3 Undefined)))
             (fixedHost (Normal [mkTab 1 (Str atest)]) (Normal (mkTab 3 Undefined)))
             tt tt (fun _ _ => eq_refl))
             (mkTab 1 (Str atest)) [mkTab 2 (Str nihongo)] [] eq_refl eq_refl).
  - exact (proj2 (proj2 (share_first_tab_only unit
             (fixedHost (Normal []) (Normal (mkTab 3 Undefined)))
             (fixedHost (Normal [mkTab 1 Undefined; mkTab 2 (Str nihongo)])
                        (Normal (mkTab 3 Undefined)))
             tt tt (fun _ _ => eq_refl)) eq_refl)
             (mkTab 1 Undefined) [mkTab 2 (Str nihongo)] eq_refl eq_refl).
Defined.

(** ** The script's top level *)

Module DOMFacts.
Import DOM.

Lemma eqb_string_eq (a b : jsstring) : eqb_string a b = true <-> a = b.
Proof.
  revert b. induction a as [|x a IH]; destruct b as [|y b]; cbn [eqb_string];
    try (split; [discriminate|discriminate]); [tauto|].
  rewrite andb_true_iff, Z.eqb_eq, IH. split; [intros [-> ->]|intros E]; auto.
  injection E as -> ->. auto.
Qed.

Lemma getElementById_found (doc : Document) (wanted : jsstring) (i : nat) :
  getElementById doc wanted = Some i ->
  exists e, nth_error doc i = Some e /\ el_id e = wanted.
Proof.
  revert i. induction doc as [|e doc IH]; intros i H; [discriminate|].
  cbn [getElementById] in H. destruct (eqb_string (el_id e) wanted) eqn:E.
  - injection H as <-. exists e. split; [reflexivity|now apply eqb_string_eq].
  - destruct (getElementById doc wanted) as [j|]; [|discriminate].
    injection H as <-. exact (IH j eq_refl).
Qed.

Lemma getElementById_none (doc : Document) (wanted : jsstring) :
  getElementById doc wanted = None <-> Forall (fun e => el_id e <> wanted) doc.
Proof.
  induction doc as [|e doc IH]; cbn [getElementById].
  { split; [constructor|reflexivity]. }
  destruct (eqb_string (el_id e) wanted) eqn:E.
  - apply eqb_string_eq in E. split; [discriminate|].
    intros H. inversion H; subst. contradiction.
  - assert (el_id e <> wanted)
      by (intros Heq; apply eqb_string_eq in Heq; congruence).
    destruct (getElementById doc wanted) as [j|]; cbn [option_map].
    + split; [discriminate|]. intros H'. inversion H' as [|? ? _ H3]; subst.
      apply IH in H3. discriminate.
    + split; [|reflexivity]. intros _. constructor; [assumption|now apply IH].
Qed.

Lemma clickListeners_add (doc : Document) (i : nat) (e : Element)
    (type : jsstring) (cb : Listener) :
  nth_error doc i = Some e ->
  clickListeners (addEventListener doc i type cb) i =
  clickListeners doc i ++ (if eqb_string type (js "click") then [cb] else []).
Proof.
  revert i. induction doc as [|x doc IH]; intros i H; [now destruct i|].
  destruct i as [|i].
  - cbn in H. injection H as ->. unfold clickListeners.
    cbn [addEventListener nth_error listeners].
    rewrite filter_app, map_app. cbn [filter fst].
    now destruct (eqb_string type (js "click")).
  - cbn [addEventListener]. unfold clickListeners in *. cbn [nth_error] in *.
    exact (IH i H).
Qed.

Lemma clickListeners_fresh (doc : Document) (i : nat) :
  Forall (fun e => listeners e = []) doc -> clickListeners doc i = [].
Proof.
  intros H. unfold clickListeners. destruct (nth_error doc i) as [e|] eqn:E;
    [|reflexivity].
  rewrite Forall_forall in H. rewrite (H e (nth_error_In _ _ E)). reflexivity.
Qed.

Lemma flat_map_nil {A B} (f : A -> list B) (l : list A) :
  (forall x, In x l -> f x = []) -> flat_map f l = [].
Proof.
  induction l as [|x l IH]; intros H; [reflexivity|].
  cbn [flat_map]. rewrite (H x (or_introl eq_refl)), IH; [reflexivity|].
  intros y Hy. apply H. now right.
Qed.

Lemma bubblePath_head (fuel : nat) (doc : Document) (i : nat) (e : Element) :
  nth_error doc i = Some e ->
  exists above, bubblePath (S fuel) doc i = i :: above.
Proof. intros H. cbn [bubblePath]. rewrite H. now eexists. Qed.

(** The positions on the path go down. *)
Lemma bubblePath_below (fuel : nat) : forall (doc : Document) (i j : nat),
  In j (bubblePath fuel doc i) -> (j <= i)%nat.
Proof.
  induction fuel as [|fuel IH]; intros doc i j H; [contradiction|].
  cbn [bubblePath] in H. destruct (nth_error doc i) as [e|]; [|contradiction].
  destruct H as [<-|H]; [lia|].
  destruct (parent e) as [p|]; [|contradiction].
  destruct (Nat.ltb_spec p i); [|contradiction].
  specialize (IH doc p j H). lia.
Qed.

Lemma bubblePath_NoDup (fuel : nat) : forall (doc : Document) (i : nat),
  NoDup (bubblePath fuel doc i).
Proof.
  induction fuel as [|fuel IH]; intros doc i; [constructor|].
  cbn [bubblePath]. destruct (nth_error doc i) as [e|]; [|constructor].
  destruct (parent e) as [p|]; [|repeat constructor; intros []].
  destruct (Nat.ltb_spec p i); [|repeat constructor; intros []].
  constructor; [|apply IH].
  intros Hin. apply bubblePath_below in Hin. lia.
Qed.

(** A document without listeners has nothing to run on a click, wherever
    the click lands. *)
Lemma click_fresh (doc : Document) (i : nat) :
  Forall (fun e => listeners e = []) doc -> click doc i = [].
Proof.
  intros H. unfold click. rewrite flat_map_nil; [reflexivity|].
  intros j _. now apply clickListeners_fresh.
Qed.

End DOMFacts.

(** With the button in the document, the script registers the handler on
    it, and that is what a click on the button then runs. *)
Lemma main_with_button (doc : DOM.Document) (btn : nat) :
  DOM.getElementById doc (js "share-btn") = Some btn ->
  Forall (fun e => DOM.listeners e = []) doc ->
  exists doc', main doc = Normal doc' /\ click doc' btn = [Pending clickHandler].
Proof.
  intros Hg Hfresh. unfold main. rewrite Hg. cbn [DOM.optionalCall DOM.memberCall].
  eexists. split; [reflexivity|].
  destruct (DOMFacts.getElementById_found doc _ btn Hg) as (e & He & _).
  unfold click, DOM.eventPath.
  set (doc' := DOM.addEventListener doc btn (js "click") clickHandler).
  assert (Hfresh' : forall j, j <> btn -> DOM.clickListeners doc' j = []).
  { intros j Hj. unfold DOM.clickListeners.
    destruct (nth_error doc' j) as [x|] eqn:Hx; [|reflexivity].
    assert (Hx' : nth_error doc j = Some x).
    { revert Hx. unfold doc'. clear -Hj. revert btn j Hj.
      induction doc as [|y doc IH]; intros [|b] [|j] Hj;
        cbn [DOM.addEventListener nth_error]; try congruence.
      apply IH. congruence. }
    rewrite Forall_forall in Hfresh.
    now rewrite (Hfresh x (nth_error_In _ _ Hx')). }
  assert (He' : exists e', nth_error doc' btn = Some e').
  { unfold doc'. clear -He. revert btn He.
    induction doc as [|y doc IH]; intros [|b] He;
      cbn [DOM.addEventListener nth_error] in *; try discriminate; eauto. }
  destruct He' as [e' He'].
  destruct (DOMFacts.bubblePath_head btn doc' btn e' He') as [above Hp].
  pose proof (DOMFacts.bubblePath_NoDup (S btn) doc' btn) as Hnd.
  rewrite Hp in *. inversion Hnd as [|? ? Hnotin _]; subst.
  cbn [flat_map]. unfold doc' at 1.
  rewrite (DOMFacts.clickListeners_add doc btn e _ _ He).
  rewrite DOMFacts.clickListeners_fresh by exact Hfresh.
  rewrite DOMFacts.flat_map_nil; [reflexivity|].
  intros j Hj. apply Hfresh'. intros ->. contradiction.
Qed.

(** A plain member call in place of the optional chain would throw. *)
Lemma memberCall_null (doc : DOM.Document) m :
  DOM.memberCall doc None m = Throw TypeError.
Proof. reflexivity. Qed.

Lemma eventLoop_idle {World} (h : Host World) (schedule : list nat) (w : World) :
  eventLoop h schedule [] w = ([], [], w).
Proof.
  induction schedule as [|i schedule IH]; [reflexivity|].
  cbn [eventLoop turnAt]. now rewrite IH.
Qed.

(** C10: in a document without an element of id [share-btn] the script
    completes normally and leaves the document as it found it, with no
    listener added; so, no other listener being there when the popup
    loads, clicks on whatever elements start no task and the event loop
    issues no call, in particular no tab-creation request. *)
Theorem main_without_button :
  forall (doc : DOM.Document),
    DOM.getElementById doc (js "share-btn") = None ->
    main doc = Normal doc /\
    (Forall (fun e => DOM.listeners e = []) doc ->
     forall (World : Type) (h : Host World) (targets schedule : list nat) (w : World),
       flat_map (click doc) targets = [] /\
       eventLoop h schedule (flat_map (click doc) targets) w = ([], [], w)).
Proof.
  intros doc Hg. split.
  - unfold main. rewrite Hg. reflexivity.
  - intros Hfresh World h targets schedule w.
    assert (E : flat_map (click doc) targets = []).
    { induction targets as [|t targets IH]; [reflexivity|].
      cbn [flat_map]. rewrite IH.
      now rewrite DOMFacts.click_fresh. }
    split; [exact E|]. rewrite E. apply eventLoop_idle.
Qed.

Lemma main_without_button_witness :
  main [DOM.mkElement (js "title") None [];
     DOM.mkElement (js "share") (Some 0%nat) []]
  = Normal [DOM.mkElement (js "title") None [];
     DOM.mkElement (js "share") (Some 0%nat) []] /\
  eventLoop windowHost [0; 0; 1]%nat
    (flat_map (click [DOM.mkElement (js "title") None [];
     DOM.mkElement (js "share") (Some 0%nat) []])
       [0; 1; 1; 5]%nat)
    [mkTab 1 (Str atest)]
  = ([], [], [mkTab 1 (Str atest)]).
Proof.
  split.
  - exact (proj1 (main_without_button
             [DOM.mkElement (js "title") None [];
     DOM.mkElement (js "share") (Some 0%nat) []] eq_refl)).
  - refine (proj2 (proj2 (main_without_button
             [DOM.mkElement (js "title") None [];
     DOM.mkElement (js "share") (Some 0%nat) []] eq_refl)
             _ (list Tab) windowHost [0; 1; 1; 5]%nat [0; 0; 1]%nat
             [mkTab 1 (Str atest)])).
    repeat constructor.
Defined.

(* ------------------------------------------------------------------ *)
(** * Further properties of the handler and of the script *)

(** ** When a tab is opened, and how the handler fails *)

(** X1: the handler asks for a new tab exactly when the query resolves
    with a first tab whose url is a non-empty string without unpaired
    surrogates. *)
Theorem share_opens_iff :
  forall (World : Type) (h : Host World) (w : World),
    created (calls (run h clickHandler w)) <> [] <->
    exists (tab : Tab) (rest : list Tab) (w' : World) (u : jsstring),
      tabs_query h activeTabQuery w = (Normal (tab :: rest), w') /\
      url tab = Str u /\ u <> [] /\ isWellFormed u = true.
Proof.
  intros World h w. split.
  - rewrite run_clickHandler.
    destruct (tabs_query h activeTabQuery w) as [[tabs|e] w'] eqn:Hq;
      [|intros H; now contradiction H].
    destruct (ToBoolean (first_url tabs)) eqn:Ht; [|intros H; now contradiction H].
    destruct tabs as [|tab rest]; [discriminate|].
    rewrite first_url_cons in *.
    destruct (url tab) as [|u] eqn:Hu; [discriminate|].
    unfold URI.encodeURIComponent. cbn [ToString].
    destruct (URI.Encode [] u) as [enc|e] eqn:He; [|intros H; now contradiction H].
    intros _. exists tab, rest, w', u. repeat split; trivial.
    + destruct u; [discriminate|discriminate].
    + exact (URIFacts.Encode_wellFormed u enc He).
  - intros (tab & rest & w' & u & Hq & Hu & Hne & Hwf).
    assert (Hf : first_url (tab :: rest) = Str u) by exact Hu.
    pose proof (ToBoolean_Str u Hne) as Ht. rewrite <- Hf in Ht.
    rewrite (created_clickHandler h w w' _ Hq Ht), Hf.
    unfold URI.encodeURIComponent. cbn [ToString].
    destruct (URIFacts.Encode_defined u Hwf) as [enc ->]. discriminate.
Qed.

(** X2: the handler's promise rejects in three ways only: the query was
    rejected, with its reason; or the first tab's address has an unpaired
    surrogate, with [URIError] and before any creation request; or the
    creation request it issued was rejected, with its reason. In
    particular the member access [tab.url] never throws. *)
Theorem share_rejects_only_with :
  forall (World : Type) (h : Host World) (w : World) (e : JSError),
    settled (run h clickHandler w) = Throw e ->
    (exists w', tabs_query h activeTabQuery w = (Throw e, w')) \/
    (e = URIError /\
     created (calls (run h clickHandler w)) = [] /\
     exists tab rest w' u,
       tabs_query h activeTabQuery w = (Normal (tab :: rest), w') /\
       url tab = Str u /\ isWellFormed u = false) \/
    (exists tab rest w' w'' encodedUrl,
       tabs_query h activeTabQuery w = (Normal (tab :: rest), w') /\
       URI.encodeURIComponent (url tab) = Normal encodedUrl /\
       tabs_create h (mkCreateProperties (Str (share_prefix ++ encodedUrl))) w'
       = (Throw e, w'') /\
       created (calls (run h clickHandler w)) = [Str (share_prefix ++ encodedUrl)]).
Proof.
  intros World h w e. rewrite run_clickHandler.
  destruct (tabs_query h activeTabQuery w) as [[tabs|e0] w'] eqn:Hq.
  2:{ cbn. intros [= ->]. left. now exists w'. }
  destruct (ToBoolean (first_url tabs)) eqn:Ht; [|discriminate].
  destruct tabs as [|tab rest]; [discriminate|]. rewrite first_url_cons in *.
  destruct (URI.encodeURIComponent (url tab)) as [enc|e0] eqn:He.
  - cbv zeta.
    destruct (tabs_create h _ w') as [[t|e0] w''] eqn:Hc; [discriminate|].
    cbn. intros [= ->]. right. right.
    exists tab, rest, w', w'', enc. repeat split; trivial.
  - cbn. intros [= ->]. right. left.
    destruct (url tab) as [|u] eqn:Hu; [discriminate|].
    unfold URI.encodeURIComponent in He. cbn [ToString] in He.
    destruct (URIFacts.Encode_throws u e He) as [-> Hwf].
    repeat split. exists tab, rest, w', u. repeat split; trivial.
Qed.

Lemma share_rejects_only_with_witness :
  (exists w', tabs_query windowHost activeTabQuery [mkTab 1 (Str [0xDBFF])]
              = (Throw URIError, w')) \/
  (URIError = URIError /\
   created (calls (run windowHost clickHandler [mkTab 1 (Str [0xDBFF])])) = [] /\
   exists tab rest w' u,
     tabs_query windowHost activeTabQuery [mkTab 1 (Str [0xDBFF])]
     = (Normal (tab :: rest), w') /\
     url tab = Str u /\ isWellFormed u = false) \/
  (exists tab rest w' w'' encodedUrl,
     tabs_query windowHost activeTabQuery [mkTab 1 (Str [0xDBFF])]
     = (Normal (tab :: rest), w') /\
     URI.encodeURIComponent (url tab) = Normal encodedUrl /\
     tabs_create windowHost (mkCreateProperties (Str (share_prefix ++ encodedUrl))) w'
     = (Throw URIError, w'') /\
     created (calls (run windowHost clickHandler [mkTab 1 (Str [0xDBFF])]))
     = [Str (share_prefix ++ encodedUrl)]).
Proof.
  exact (share_rejects_only_with (list Tab) windowHost [mkTab 1 (Str [0xDBFF])]
           URIError eq_refl).
Defined.

(** X3: when the host rejects the creation request, the handler has
    issued the query and that one request and nothing after it (no second
    attempt), and its promise rejects with the host's reason. *)
Theorem share_create_rejection :
  forall (World : Type) (h : Host World) (w w' w'' : World)
         (tab : Tab) (rest : list Tab) (u encodedUrl : jsstring) (e : JSError),
    tabs_query h activeTabQuery w = (Normal (tab :: rest), w') ->
    url tab = Str u -> u <> [] ->
    URI.encodeURIComponent (Str u) = Normal encodedUrl ->
    tabs_create h (mkCreateProperties (Str (share_prefix ++ encodedUrl))) w'
    = (Throw e, w'') ->
    run h clickHandler w =
    mkOutcome [QueryCall activeTabQuery;
               CreateCall (mkCreateProperties (Str (share_prefix ++ encodedUrl)))]
              (Throw e) w''.
Proof.
  intros World h w w' w'' tab rest u enc e Hq Hu Hne He Hc.
  assert (Hf : first_url (tab :: rest) = Str u) by exact Hu.
  pose proof (ToBoolean_Str u Hne) as Ht. rewrite <- Hf in Ht.
  rewrite run_clickHandler, Hq, Ht, Hf, He. cbv zeta. now rewrite Hc.
Qed.

Lemma share_create_rejection_witness :
  run (fixedHost (Normal [mkTab 1 (Str atest)]) (Throw (HostError (js "quota"))))
      clickHandler tt
  = mkOutcome [QueryCall activeTabQuery;
               CreateCall (mkCreateProperties
                             (Str (share_prefix ++ js "https%3A%2F%2Fa.test%2F")))]
              (Throw (HostError (js "quota"))) tt.
Proof.
  refine (share_create_rejection unit
            (fixedHost (Normal [mkTab 1 (Str atest)]) (Throw (HostError (js "quota"))))
            tt tt tt (mkTab 1 (Str atest)) [] atest (js "https%3A%2F%2Fa.test%2F")
            (HostError (js "quota")) eq_refl eq_refl _ eq_refl eq_refl).
  discriminate.
Defined.

(** ** The shape of the address that is opened *)

Module TargetFacts.
Import URI.

Lemma length_percentOctets (octets : list Z) :
  length (percentOctets octets) = (3 * length octets)%nat.
Proof.
  induction octets as [|b bs IH]; [reflexivity|].
  unfold percentOctets in *. cbn [flat_map]. rewrite length_app, IH.
  cbn [percentOctet length]. lia.
Qed.

Lemma length_UTF8Encode (cp : Z) :
  (1 <= length (UTF8Encode cp) <= 4)%nat /\
  (cp <= 0xFFFF -> (length (UTF8Encode cp) <= 3)%nat).
Proof.
  unfold UTF8Encode.
  destruct (Z.leb_spec cp 0x7F); [cbn; lia|].
  destruct (Z.leb_spec cp 0x7FF); [cbn; lia|].
  destruct (Z.leb_spec cp 0xFFFF); cbn; lia.
Qed.

Lemma Encodes_length (s r : jsstring) :
  Encodes s r -> Forall code_unit s ->
  (length s <= length r <= 9 * length s)%nat.
Proof.
  induction 1 as [|C s r Hu _ IH|C s r Hu Hl Ht _ IH|C D s r Hu Hl Ht _ IH];
    intros Hcu.
  - cbn. lia.
  - inversion Hcu; subst. specialize (IH ltac:(assumption)). cbn [length]. lia.
  - inversion Hcu as [|? ? HC Hs]; subst. specialize (IH Hs).
    rewrite length_app, length_percentOctets. cbn [length].
    destruct (length_UTF8Encode C) as [B1 B2].
    unfold code_unit in HC. specialize (B2 ltac:(lia)). lia.
  - inversion Hcu as [|? ? HC Hs]; subst. inversion Hs as [|? ? HD Hs']; subst.
    specialize (IH Hs').
    rewrite length_app, length_percentOctets. cbn [length].
    destruct (length_UTF8Encode (UTF16SurrogatePairToCodePoint C D)) as [B1 _]. lia.
Qed.

(** Without the range of a code unit the lower bound still holds. *)
Lemma Encodes_grows (s r : jsstring) :
  Encodes s r -> (length s <= length r)%nat.
Proof.
  induction 1 as [|C s r Hu _ IH|C s r Hu Hl Ht _ IH|C D s r Hu Hl Ht _ IH];
    cbn [length]; try rewrite length_app, length_percentOctets; try lia.
  - destruct (length_UTF8Encode C) as [B1 _]. lia.
  - destruct (length_UTF8Encode (UTF16SurrogatePairToCodePoint C D)) as [B1 _]. lia.
Qed.

Lemma Encodes_same_length (s r : jsstring) :
  Encodes s r -> length r = length s -> Forall unescaped s.
Proof.
  induction 1 as [|C s r Hu H IH|C s r Hu Hl Ht H IH|C D s r Hu Hl Ht H IH];
    intros Hlen.
  - constructor.
  - cbn [length] in Hlen. constructor; [exact Hu|]. apply IH. lia.
  - exfalso. pose proof (Encodes_grows s r H).
    rewrite length_app, length_percentOctets in Hlen. cbn [length] in Hlen.
    destruct (length_UTF8Encode C) as [B1 _]. lia.
  - exfalso. pose proof (Encodes_grows s r H).
    rewrite length_app, length_percentOctets in Hlen. cbn [length] in Hlen.
    destruct (length_UTF8Encode (UTF16SurrogatePairToCodePoint C D)) as [B1 _]. lia.
Qed.

Lemma unescaped_Encodes (s : jsstring) : Forall unescaped s -> Encodes s s.
Proof. induction 1; constructor; assumption. Qed.

Lemma alphabet_ascii (c : Z) :
  contains outputAlphabet c = true -> 0 <= c < 128.
Proof.
  unfold contains. rewrite existsb_exists. intros [x [Hin Hx]].
  apply Z.eqb_eq in Hx. subst x.
  assert (F : forallb (fun c => (0 <=? c) && (c <? 128)) outputAlphabet = true)
    by reflexivity.
  rewrite forallb_forall in F. specialize (F c Hin).
  apply andb_prop in F as [F1 F2]. apply Z.leb_le in F1. apply Z.ltb_lt in F2. lia.
Qed.

Lemma Encodes_cmap_app (s1 r1 s2 : jsstring) :
  Encodes s1 r1 -> Encode [] (s1 ++ s2) = cmap (app r1) (Encode [] s2).
Proof.
  induction 1 as [|C s r Hu _ IH|C s r Hu Hl Ht _ IH|C D s r Hu Hl Ht _ IH];
    cbn [app].
  - now destruct (Encode [] s2).
  - rewrite URIFacts.Encode_unescaped, IH by exact Hu.
    now destruct (Encode [] s2).
  - rewrite URIFacts.Encode_bmp, IH by assumption.
    destruct (Encode [] s2); cbn; [now rewrite app_assoc|reflexivity].
  - rewrite URIFacts.Encode_pair, IH by assumption.
    destruct (Encode [] s2); cbn; [now rewrite app_assoc|reflexivity].
Qed.

(** What the handler asks for, when it asks. *)
Lemma created_target {World} (h : Host World) (w w' : World)
    (tab : Tab) (rest : list Tab) (u target : jsstring) :
  tabs_query h activeTabQuery w = (Normal (tab :: rest), w') ->
  url tab = Str u ->
  In (Str target) (created (calls (run h clickHandler w))) ->
  exists encodedUrl,
    Encodes u encodedUrl /\ target = share_prefix ++ encodedUrl.
Proof.
  intros Hq Hu Hin.
  assert (Hf : first_url (tab :: rest) = Str u) by exact Hu.
  destruct (ToBoolean (first_url (tab :: rest))) eqn:Ht.
  2:{ rewrite run_clickHandler, Hq, Ht in Hin. contradiction. }
  rewrite (created_clickHandler h w w' _ Hq Ht), Hf in Hin.
  unfold encodeURIComponent in Hin. cbn [ToString] in Hin.
  destruct (Encode [] u) as [enc|e] eqn:He; [|contradiction].
  destruct Hin as [Heq|[]]. injection Heq as <-.
  exists enc. split; [now apply URIFacts.Encode_Encodes|reflexivity].
Qed.

End TargetFacts.

(** X4: the address the handler opens has [url] as its only query
    parameter and no fragment, whatever the tab address holds: its query
    is ["url="] followed by the encoded value, which splits into that one
    pair, and a parameter of any other name is not found. *)
Theorem share_target_single_parameter :
  forall (World : Type) (h : Host World) (w w' : World)
         (tab : Tab) (rest : list Tab) (u target : jsstring),
    Forall code_unit u ->
    tabs_query h activeTabQuery w = (Normal (tab :: rest), w') ->
    url tab = Str u ->
    In (Str target) (created (calls (run h clickHandler w))) ->
    exists encodedUrl,
      target = share_prefix ++ encodedUrl /\
      snd (Query.cut 35 target) = None /\
      Query.queryOf target = Some (js "url=" ++ encodedUrl) /\
      Query.split 38 (js "url=" ++ encodedUrl) = [js "url=" ++ encodedUrl] /\
      forall name, name <> js "url" -> Query.param name target = None.
Proof.
  intros World h w w' tab rest u target Hcu Hq Hu Hin.
  destruct (TargetFacts.created_target h w w' tab rest u target Hq Hu Hin)
    as (enc & He & ->).
  pose proof (URIFacts.Encodes_alphabet u enc He Hcu) as Ha.
  assert (H35 : ~ In 35 enc)
    by (apply (fun H => URIFacts.alphabet_absent _ enc H Ha); reflexivity).
  assert (H38 : ~ In 38 enc)
    by (apply (fun H => URIFacts.alphabet_absent _ enc H Ha); reflexivity).
  assert (Hcut : Query.cut 35 (share_prefix ++ enc) = (share_prefix ++ enc, None)).
  { apply QueryFacts.cut_absent, QueryFacts.not_in_app;
      [apply QueryFacts.not_in_js; reflexivity|exact H35]. }
  assert (Hquery : Query.queryOf (share_prefix ++ enc) = Some (js "url=" ++ enc)).
  { unfold Query.queryOf. rewrite Hcut. cbn [fst].
    change share_prefix with (js "https://curaq.pages.dev/share" ++ 63 :: js "url=").
    rewrite <- app_assoc, <- app_comm_cons.
    rewrite QueryFacts.cut_found by (apply QueryFacts.not_in_js; reflexivity).
    reflexivity. }
  assert (Hsplit : Query.split 38 (js "url=" ++ enc) = [js "url=" ++ enc]).
  { apply QueryFacts.split_absent, QueryFacts.not_in_app;
      [apply QueryFacts.not_in_js; reflexivity|exact H38]. }
  exists enc. split; [reflexivity|]. split; [now rewrite Hcut|].
  split; [exact Hquery|]. split; [exact Hsplit|].
  intros name Hname. unfold Query.param. rewrite Hquery, Hsplit.
  cbn [Query.lookup].
  change (js "url=" ++ enc) with (js "url" ++ 61 :: enc).
  rewrite QueryFacts.cut_found by (apply QueryFacts.not_in_js; reflexivity).
  destruct (DOM.eqb_string (js "url") name) eqn:E; [|reflexivity].
  apply DOMFacts.eqb_string_eq in E. congruence.
Qed.

Lemma share_target_single_parameter_witness :
  exists encodedUrl,
    js "https://curaq.pages.dev/share?url=https%3A%2F%2Fa.test%2F%3Fq%3D1%26url%3Dx%23f"
    = share_prefix ++ encodedUrl /\
    snd (Query.cut 35
      (js "https://curaq.pages.dev/share?url=https%3A%2F%2Fa.test%2F%3Fq%3D1%26url%3Dx%23f"))
    = None /\
    Query.queryOf
      (js "https://curaq.pages.dev/share?url=https%3A%2F%2Fa.test%2F%3Fq%3D1%26url%3Dx%23f")
    = Some (js "url=" ++ encodedUrl) /\
    Query.split 38 (js "url=" ++ encodedUrl) = [js "url=" ++ encodedUrl] /\
    forall name, name <> js "url" ->
      Query.param name
        (js "https://curaq.pages.dev/share?url=https%3A%2F%2Fa.test%2F%3Fq%3D1%26url%3Dx%23f")
      = None.
Proof.
  refine (share_target_single_parameter (list Tab) windowHost
            [mkTab 1 (Str (js "https://a.test/?q=1&url=x#f"))]
            [mkTab 1 (Str (js "https://a.test/?q=1&url=x#f"))]
            (mkTab 1 (Str (js "https://a.test/?q=1&url=x#f"))) []
            (js "https://a.test/?q=1&url=x#f") _ _ eq_refl eq_refl _).
  - repeat constructor; unfold code_unit; lia.
  - left. reflexivity.
Defined.

(** X5: the address the handler opens is the prefix followed by ASCII
    characters only, and it is at least as long as the prefix plus the
    tab address and at most the prefix plus nine times the tab address. *)
Theorem share_target_ascii_bounded :
  forall (World : Type) (h : Host World) (w w' : World)
         (tab : Tab) (rest : list Tab) (u target : jsstring),
    Forall code_unit u ->
    tabs_query h activeTabQuery w = (Normal (tab :: rest), w') ->
    url tab = Str u ->
    In (Str target) (created (calls (run h clickHandler w))) ->
    firstn (length share_prefix) target = share_prefix /\
    Forall (fun c => 0 <= c < 128) target /\
    (length share_prefix + length u <= length target
     <= length share_prefix + 9 * length u)%nat.
Proof.
  intros World h w w' tab rest u target Hcu Hq Hu Hin.
  destruct (TargetFacts.created_target h w w' tab rest u target Hq Hu Hin)
    as (enc & He & ->).
  split; [|split].
  - rewrite firstn_app, Nat.sub_diag, firstn_all. cbn [firstn]. apply app_nil_r.
  - apply Forall_app. split.
    + assert (F : forallb (fun c => (0 <=? c) && (c <? 128)) share_prefix = true)
        by reflexivity.
      rewrite forallb_forall in F. apply Forall_forall. intros c Hc.
      specialize (F c Hc). apply andb_prop in F as [F1 F2].
      apply Z.leb_le in F1. apply Z.ltb_lt in F2. lia.
    + pose proof (URIFacts.Encodes_alphabet u enc He Hcu) as Ha.
      eapply Forall_impl; [|exact Ha]. intros c. apply TargetFacts.alphabet_ascii.
  - rewrite length_app. pose proof (TargetFacts.Encodes_length u enc He Hcu). lia.
Qed.

Lemma share_target_ascii_bounded_witness :
  firstn (length share_prefix)
    (js "https://curaq.pages.dev/share?url=https%3A%2F%2Fexample.com%2F%E6%97%A5%E6%9C%AC%E8%AA%9E")
  = share_prefix /\
  Forall (fun c => 0 <= c < 128)
    (js "https://curaq.pages.dev/share?url=https%3A%2F%2Fexample.com%2F%E6%97%A5%E6%9C%AC%E8%AA%9E") /\
  (length share_prefix + length nihongo
   <= length (js "https://curaq.pages.dev/share?url=https%3A%2F%2Fexample.com%2F%E6%97%A5%E6%9C%AC%E8%AA%9E")
   <= length share_prefix + 9 * length nihongo)%nat.
Proof.
  refine (share_target_ascii_bounded (list Tab) windowHost
            [mkTab 7 (Str nihongo)] [mkTab 7 (Str nihongo)]
            (mkTab 7 (Str nihongo)) [] nihongo _ _ eq_refl eq_refl _).
  - repeat constructor; unfold code_unit; lia.
  - left. reflexivity.
Defined.

(** X6: different tab addresses are never shared under the same address:
    two invocations, on whatever hosts, that ask for the same new tab read
    the same tab address. *)
Theorem share_target_injective :
  forall (World1 World2 : Type) (h1 : Host World1) (h2 : Host World2)
         (w1 w1' : World1) (w2 w2' : World2)
         (tab1 tab2 : Tab) (rest1 rest2 : list Tab) (u1 u2 target : jsstring),
    Forall code_unit u1 -> Forall code_unit u2 ->
    tabs_query h1 activeTabQuery w1 = (Normal (tab1 :: rest1), w1') ->
    tabs_query h2 activeTabQuery w2 = (Normal (tab2 :: rest2), w2') ->
    url tab1 = Str u1 -> url tab2 = Str u2 ->
    In (Str target) (created (calls (run h1 clickHandler w1))) ->
    In (Str target) (created (calls (run h2 clickHandler w2))) ->
    u1 = u2.
Proof.
  intros W1 W2 h1 h2 w1 w1' w2 w2' tab1 tab2 rest1 rest2 u1 u2 target
         C1 C2 Q1 Q2 U1 U2 I1 I2.
  destruct (TargetFacts.created_target h1 w1 w1' tab1 rest1 u1 target Q1 U1 I1)
    as (e1 & E1 & T1).
  destruct (TargetFacts.created_target h2 w2 w2' tab2 rest2 u2 target Q2 U2 I2)
    as (e2 & E2 & T2).
  rewrite T1 in T2. apply app_inv_head in T2. subst e2.
  pose proof (URIFacts.Encodes_Decode u1 e1 E1 C1) as D1.
  pose proof (URIFacts.Encodes_Decode u2 e1 E2 C2) as D2.
  congruence.
Qed.

Lemma share_target_injective_witness : atest = atest.
Proof.
  refine (share_target_injective (list Tab) unit windowHost
            (fixedHost (Normal [mkTab 9 (Str atest); mkTab 2 Undefined])
                       (Throw (HostError (js "quota"))))
            [mkTab 1 (Str atest)] [mkTab 1 (Str atest)] tt tt
            (mkTab 1 (Str atest)) (mkTab 9 (Str atest)) [] [mkTab 2 Undefined]
            atest atest atest_target _ _ eq_refl eq_refl eq_refl eq_refl _ _).
  - repeat constructor; unfold code_unit; lia.
  - repeat constructor; unfold code_unit; lia.
  - left. reflexivity.
  - left. reflexivity.
Defined.

(** ** The encoding the handler applies *)

(** X7: [encodeURIComponent] returns its argument unchanged exactly when
    every character of it is a letter, a digit or one of
    [- _ . ! ~ * ' ( )]; any other character makes the result longer. *)
Theorem encode_verbatim_iff :
  forall (u : jsstring),
    (URI.encodeURIComponent (Str u) = Normal u <-> Forall unescaped u) /\
    (forall encodedUrl,
       URI.encodeURIComponent (Str u) = Normal encodedUrl ->
       (length u <= length encodedUrl)%nat /\
       (length encodedUrl = length u -> encodedUrl = u)).
Proof.
  intros u. unfold URI.encodeURIComponent. cbn [ToString]. split; [split|].
  - intros He. apply URIFacts.Encode_Encodes in He.
    now apply (TargetFacts.Encodes_same_length u u).
  - intros Hu. now apply URIFacts.Encodes_Encode, TargetFacts.unescaped_Encodes.
  - intros enc He. pose proof (URIFacts.Encode_Encodes u enc He) as HE.
    split; [now apply TargetFacts.Encodes_grows|].
    intros Hlen. pose proof (TargetFacts.Encodes_same_length u enc HE Hlen) as Hu.
    apply TargetFacts.unescaped_Encodes, URIFacts.Encodes_Encode in Hu. congruence.
Qed.

(** X8: [encodeURIComponent] works piece by piece: after a piece it can
    encode, the result for the whole is the encoding of that piece followed
    by the result for the rest, a [URIError] included. *)
Theorem encode_concat :
  forall (s1 s2 r1 : jsstring),
    URI.encodeURIComponent (Str s1) = Normal r1 ->
    URI.encodeURIComponent (Str (s1 ++ s2))
    = cmap (app r1) (URI.encodeURIComponent (Str s2)).
Proof.
  unfold URI.encodeURIComponent. cbn [ToString]. intros s1 s2 r1 H1.
  apply TargetFacts.Encodes_cmap_app, URIFacts.Encode_Encodes, H1.
Qed.

Lemma encode_concat_witness :
  URI.encodeURIComponent (Str (js "a b" ++ [0xD83D; 0xDE00; 0xDE00]))
  = cmap (app (js "a%20b")) (URI.encodeURIComponent (Str [0xD83D; 0xDE00; 0xDE00])).
Proof.
  exact (encode_concat (js "a b") [0xD83D; 0xDE00; 0xDE00] (js "a%20b") eq_refl).
Defined.

(** ** Registration of the listener *)

Module RegistrationFacts.
Import DOM.

Lemma length_addEventListener (doc : Document) (i : nat) type cb :
  length (addEventListener doc i type cb) = length doc.
Proof.
  revert i. induction doc as [|e doc IH]; intros [|i]; cbn [addEventListener length];
    try reflexivity. now rewrite IH.
Qed.

Lemma nth_addEventListener_other (doc : Document) (i j : nat) type cb :
  j <> i -> nth_error (addEventListener doc i type cb) j = nth_error doc j.
Proof.
  revert i j. induction doc as [|e doc IH]; intros [|i] [|j] H;
    cbn [addEventListener nth_error]; try reflexivity; try congruence.
  apply IH. congruence.
Qed.

Lemma nth_addEventListener_same (doc : Document) (i : nat) (e : Element) type cb :
  nth_error doc i = Some e ->
  nth_error (addEventListener doc i type cb) i
  = Some (mkElement (el_id e) (parent e) (listeners e ++ [(type, cb)])).
Proof.
  revert i. induction doc as [|x doc IH]; intros [|i] H;
    cbn [addEventListener nth_error] in *; try discriminate.
  - now injection H as ->.
  - now apply IH.
Qed.

(** Adding a listener moves no element: every position keeps its parent. *)
Lemma parent_addEventListener (doc : Document) (i j : nat) type cb :
  option_map parent (nth_error (addEventListener doc i type cb) j)
  = option_map parent (nth_error doc j).
Proof.
  destruct (Nat.eq_dec j i) as [->|Hj].
  - destruct (nth_error doc i) as [e|] eqn:He.
    + now rewrite (nth_addEventListener_same doc i e _ _ He).
    + assert (nth_error (addEventListener doc i type cb) i = None) as ->;
        [|reflexivity].
      apply nth_error_None. rewrite length_addEventListener.
      now apply nth_error_None.
  - now rewrite nth_addEventListener_other.
Qed.

Lemma bubblePath_addEventListener (fuel : nat) :
  forall (doc : Document) (i j : nat) type cb,
    bubblePath fuel (addEventListener doc i type cb) j = bubblePath fuel doc j.
Proof.
  induction fuel as [|fuel IH]; intros doc i j type cb; [reflexivity|].
  cbn [bubblePath]. pose proof (parent_addEventListener doc i j type cb) as P.
  destruct (nth_error (addEventListener doc i type cb) j) as [x|];
    destruct (nth_error doc j) as [y|]; cbn [option_map] in P; try discriminate;
    [|reflexivity].
  injection P as ->. destruct (parent y) as [p|]; [|reflexivity].
  destruct (p <? j)%nat; [|reflexivity]. now rewrite IH.
Qed.

Lemma getElementById_first (doc : Document) (wanted : jsstring) (i : nat) :
  getElementById doc wanted = Some i ->
  forall j e, (j < i)%nat -> nth_error doc j = Some e -> el_id e <> wanted.
Proof.
  revert i. induction doc as [|x doc IH]; intros i H j e Hj Hn; [discriminate|].
  cbn [getElementById] in H. destruct (eqb_string (el_id x) wanted) eqn:E.
  - injection H as <-. lia.
  - destruct (getElementById doc wanted) as [i'|] eqn:G; [|discriminate].
    injection H as <-. destruct j as [|j]; cbn [nth_error] in Hn.
    + injection Hn as <-. intros Heq. apply DOMFacts.eqb_string_eq in Heq. congruence.
    + apply (IH i' eq_refl j e); [lia|exact Hn].
Qed.

Lemma clickListeners_other (doc : Document) (i j : nat) type cb :
  j <> i -> clickListeners (addEventListener doc i type cb) j = clickListeners doc j.
Proof.
  intros H. unfold clickListeners. now rewrite nth_addEventListener_other.
Qed.

(** Along positions other than [i] the listeners to run are the old ones. *)
Lemma flat_map_clickListeners_other (doc : Document) (i : nat) type cb (l : list nat) :
  ~ In i l ->
  flat_map (clickListeners (addEventListener doc i type cb)) l
  = flat_map (clickListeners doc) l.
Proof.
  induction l as [|j l IH]; intros H; [reflexivity|].
  cbn [flat_map]. rewrite clickListeners_other, IH; [reflexivity| |].
  - intros Hin. apply H. now right.
  - intros ->. apply H. now left.
Qed.

End RegistrationFacts.

(** X9: when the document has an element of id [share-btn], the script
    adds the handler as a click listener, after the listeners already
    there, to the first such element in tree order and to no other: the
    document keeps its elements, their places in the tree and the
    listeners of the others. A click then bubbles along the same elements
    as before; if it lands on the button or inside it, it starts what it
    started before and the handler once more, run after the button's
    earlier listeners and before those of the button's ancestors; if it
    lands elsewhere, it starts what it started before. *)
Theorem main_registers_on_first_button :
  forall (doc : DOM.Document) (btn : nat),
    DOM.getElementById doc (js "share-btn") = Some btn ->
    exists (e : DOM.Element) (doc' : DOM.Document),
      main doc = Normal doc' /\
      nth_error doc btn = Some e /\ DOM.el_id e = js "share-btn" /\
      (forall j e', (j < btn)%nat -> nth_error doc j = Some e' ->
                    DOM.el_id e' <> js "share-btn") /\
      length doc' = length doc /\
      nth_error doc' btn
      = Some (DOM.mkElement (DOM.el_id e) (DOM.parent e)
                (DOM.listeners e ++ [(js "click", clickHandler)])) /\
      (forall j, j <> btn -> nth_error doc' j = nth_error doc j) /\
      (forall j, DOM.eventPath doc' j = DOM.eventPath doc j) /\
      In btn (DOM.eventPath doc btn) /\
      (forall j, In btn (DOM.eventPath doc j) ->
         exists below above,
           DOM.eventPath doc j = below ++ btn :: above /\
           click doc j
           = map Pending (flat_map (DOM.clickListeners doc) (below ++ [btn]))
             ++ map Pending (flat_map (DOM.clickListeners doc) above) /\
           click doc' j
           = map Pending (flat_map (DOM.clickListeners doc) (below ++ [btn]))
             ++ Pending clickHandler
             :: map Pending (flat_map (DOM.clickListeners doc) above)) /\
      (forall j, ~ In btn (DOM.eventPath doc j) -> click doc' j = click doc j).
Proof.
  intros doc btn Hg.
  destruct (DOMFacts.getElementById_found doc _ btn Hg) as (e & He & Hid).
  exists e, (DOM.addEventListener doc btn (js "click") clickHandler).
  assert (Hpath : forall j,
            DOM.eventPath (DOM.addEventListener doc btn (js "click") clickHandler) j
            = DOM.eventPath doc j).
  { intros j. apply RegistrationFacts.bubblePath_addEventListener. }
  split; [unfold main; now rewrite Hg|].
  split; [exact He|]. split; [exact Hid|].
  split; [exact (RegistrationFacts.getElementById_first doc _ btn Hg)|].
  split; [apply RegistrationFacts.length_addEventListener|].
  split; [now apply RegistrationFacts.nth_addEventListener_same|].
  split; [intros j Hj; now apply RegistrationFacts.nth_addEventListener_other|].
  split; [exact Hpath|].
  split.
  { unfold DOM.eventPath.
    destruct (DOMFacts.bubblePath_head btn doc btn e He) as [above ->]. now left. }
  split.
  - intros j Hin. destruct (in_split _ _ Hin) as (below & above & Hsplit).
    pose proof (DOMFacts.bubblePath_NoDup (S j) doc j) as Hnd.
    fold (DOM.eventPath doc j) in Hnd. rewrite Hsplit in Hnd.
    apply NoDup_remove_2 in Hnd.
    assert (Hb : ~ In btn below) by (intros H; apply Hnd, in_or_app; now left).
    assert (Ha : ~ In btn above) by (intros H; apply Hnd, in_or_app; now right).
    exists below, above. split; [exact Hsplit|]. unfold click.
    rewrite Hpath, Hsplit. split.
    + rewrite <- map_app, <- flat_map_app, <- app_assoc. reflexivity.
    + rewrite !flat_map_app. cbn [flat_map]. rewrite !app_nil_r.
      rewrite !RegistrationFacts.flat_map_clickListeners_other by assumption.
      rewrite (DOMFacts.clickListeners_add doc btn e _ _ He).
      change (DOM.eqb_string (js "click") (js "click")) with true. cbv iota.
      rewrite !map_app. cbn [map]. rewrite <- !app_assoc. reflexivity.
  - intros j Hnot. unfold click. rewrite Hpath.
    now rewrite RegistrationFacts.flat_map_clickListeners_other.
Qed.

Lemma main_registers_on_first_button_witness :
  exists (e : DOM.Element) (doc' : DOM.Document),
    main popupDocument = Normal doc' /\
    nth_error popupDocument 1 = Some e /\ DOM.el_id e = js "share-btn" /\
    (forall j e', (j < 1)%nat -> nth_error popupDocument j = Some e' ->
                  DOM.el_id e' <> js "share-btn") /\
    length doc' = length popupDocument /\
    nth_error doc' 1
    = Some (DOM.mkElement (DOM.el_id e) (DOM.parent e)
              (DOM.listeners e ++ [(js "click", clickHandler)])) /\
    (forall j, j <> 1%nat -> nth_error doc' j = nth_error popupDocument j) /\
    (forall j, DOM.eventPath doc' j = DOM.eventPath popupDocument j) /\
    In 1%nat (DOM.eventPath popupDocument 1) /\
    (forall j, In 1%nat (DOM.eventPath popupDocument j) ->
       exists below above,
         DOM.eventPath popupDocument j = below ++ 1%nat :: above /\
         click popupDocument j
         = map Pending (flat_map (DOM.clickListeners popupDocument) (below ++ [1%nat]))
           ++ map Pending (flat_map (DOM.clickListeners popupDocument) above) /\
         click doc' j
         = map Pending (flat_map (DOM.clickListeners popupDocument) (below ++ [1%nat]))
           ++ Pending clickHandler
           :: map Pending (flat_map (DOM.clickListeners popupDocument) above)) /\
    (forall j, ~ In 1%nat (DOM.eventPath popupDocument j) ->
       click doc' j = click popupDocument j).
Proof.
  exact (main_registers_on_first_button popupDocument 1%nat eq_refl).
Defined.

(** ** Any number of overlapping clicks *)

Section Overlapping.

Context {World : Type} (h : Host World).
Variables u encodedUrl : jsstring.

Hypothesis address : u <> [].
Hypothesis encoded : URI.encodeURIComponent (Str u) = Normal encodedUrl.

(** Every query finds a tab at [u] in front. *)
Hypothesis front :
  forall w, exists tab rest w',
    tabs_query h activeTabQuery w = (Normal (tab :: rest), w') /\
    url tab = Str u.

Lemma turn_clickHandler_onTab (w : World) :
  exists w', turn h clickHandler w
             = ([QueryCall activeTabQuery], Pending (creating encodedUrl), w').
Proof.
  destruct (front w) as (tab & rest & w' & Hq & Hu). exists w'.
  unfold clickHandler. cbn [abind turn]. fold activeTabQuery. rewrite Hq.
  cbn [abind]. fold (first_url (tab :: rest)).
  assert (Ht : ToBoolean (first_url (tab :: rest)) = true)
    by (rewrite first_url_cons, Hu; now apply ToBoolean_Str).
  rewrite Ht, (member_url_guarded _ Ht), first_url_cons, Hu.
  cbn [eval abind]. rewrite encoded. reflexivity.
Qed.

Lemma turn_onTab (p : Async unit) (w : World) cs t w' :
  onTab encodedUrl (Pending p) -> turn h p w = (cs, t, w') ->
  onTab encodedUrl t /\ (requested (Pending p) <= requested t <= 1)%nat /\
  created cs = repeat (Str (share_prefix ++ encodedUrl))
                 (requested t - requested (Pending p)).
Proof.
  intros [E|[E|[E|[c E]]]] Ht; try discriminate; injection E as ->.
  - destruct (turn_clickHandler_onTab w) as [w1 H1]. rewrite H1 in Ht.
    injection Ht as <- <- <-. split; [right; now left|].
    split; [cbn; lia|reflexivity].
  - unfold creating in Ht. cbn [turn] in Ht.
    destruct (tabs_create h _ w) as [[t'|e] w1]; injection Ht as <- <- <-.
    + split; [right; right; now left|]. split; [cbn; lia|reflexivity].
    + split; [right; right; right; now eexists|]. split; [cbn; lia|reflexivity].
  - cbn [turn] in Ht. injection Ht as <- <- <-.
    split; [right; right; right; now eexists|]. split; [cbn; lia|reflexivity].
Qed.

Lemma turnAt_onTab : forall (tasks : list Task) (i : nat) (w : World) cs tasks' w',
  Forall (onTab encodedUrl) tasks -> turnAt h i tasks w = (cs, tasks', w') ->
  Forall (onTab encodedUrl) tasks' /\ length tasks' = length tasks /\
  (requestedAll tasks <= requestedAll tasks')%nat /\
  created cs = repeat (Str (share_prefix ++ encodedUrl))
                 (requestedAll tasks' - requestedAll tasks).
Proof.
  unfold requestedAll, list_sum.
  induction tasks as [|t rest IH]; intros i w cs tasks' w' Hall Ht.
  { cbn in Ht. injection Ht as <- <- <-. repeat split; auto. }
  inversion Hall as [|? ? Hhd Htl]; subst.
  destruct i as [|i].
  - destruct t as [p|c]; cbn [turnAt] in Ht.
    + destruct (turn h p w) as [[cs1 t1] w1] eqn:E. injection Ht as <- <- <-.
      destruct (turn_onTab p w cs1 t1 w1 Hhd E) as (H1 & H2 & H3).
      split; [now constructor|]. split; [reflexivity|].
      cbn [map fold_right]. split; [lia|].
      rewrite H3. f_equal. lia.
    + injection Ht as <- <- <-. repeat split; auto.
      now rewrite Nat.sub_diag.
  - assert (Ht' : (let '(cs0, rest', w0) := turnAt h i rest w in
                   (cs0, t :: rest', w0)) = (cs, tasks', w'))
      by (destruct t; exact Ht).
    destruct (turnAt h i rest w) as [[cs0 rest'] w0] eqn:E.
    injection Ht' as <- <- <-.
    destruct (IH i w cs0 rest' w0 Htl E) as (H1 & H2 & H3 & H4).
    split; [now constructor|]. split; [cbn [length]; now rewrite H2|].
    cbn [map fold_right]. split; [lia|]. rewrite H4. f_equal. lia.
Qed.

Lemma eventLoop_onTab : forall (schedule : list nat) (tasks : list Task)
    (w : World) cs tasks' w',
  Forall (onTab encodedUrl) tasks ->
  eventLoop h schedule tasks w = (cs, tasks', w') ->
  Forall (onTab encodedUrl) tasks' /\ length tasks' = length tasks /\
  (requestedAll tasks <= requestedAll tasks')%nat /\
  created cs = repeat (Str (share_prefix ++ encodedUrl))
                 (requestedAll tasks' - requestedAll tasks).
Proof.
  induction schedule as [|i schedule IH]; intros tasks w cs tasks' w' Hall He.
  { cbn in He. injection He as <- <- <-. repeat split; auto.
    now rewrite Nat.sub_diag. }
  cbn [eventLoop] in He.
  destruct (turnAt h i tasks w) as [[cs1 tasks1] w1] eqn:E1.
  destruct (eventLoop h schedule tasks1 w1) as [[cs2 tasks2] w2] eqn:E2.
  injection He as <- <- <-.
  destruct (turnAt_onTab tasks i w cs1 tasks1 w1 Hall E1) as (A1 & A2 & A3 & A4).
  destruct (IH tasks1 w1 cs2 tasks2 w2 A1 E2) as (B1 & B2 & B3 & B4).
  split; [exact B1|]. split; [congruence|]. split; [lia|].
  rewrite created_app, A4, B4, <- repeat_app. f_equal. lia.
Qed.

Lemma requestedAll_bound (tasks : list Task) :
  (requestedAll tasks <= length tasks)%nat.
Proof.
  unfold requestedAll, list_sum. induction tasks as [|t tasks IH]; [cbn; lia|].
  cbn [map fold_right length].
  assert (requested t <= 1)%nat by (destruct t as [[| | |]|]; cbn; lia). lia.
Qed.

Lemma requestedAll_fresh (n : nat) :
  requestedAll (repeat (Pending clickHandler) n) = 0%nat.
Proof.
  unfold requestedAll, list_sum. induction n as [|n IH]; [reflexivity|].
  cbn [repeat map fold_right]. now rewrite IH.
Qed.

Lemma overlapping (n : nat) (schedule : list nat) (w : World) cs tasks' w' :
  eventLoop h schedule (repeat (Pending clickHandler) n) w = (cs, tasks', w') ->
  exists k, (k <= n)%nat /\
    created cs = repeat (Str (share_prefix ++ encodedUrl)) k /\
    (forallb isSettled tasks' = true -> k = n).
Proof.
  intros He.
  assert (Hall : Forall (onTab encodedUrl) (repeat (Pending clickHandler) n)).
  { apply Forall_forall. intros t Ht. apply repeat_spec in Ht. subst. now left. }
  destruct (eventLoop_onTab schedule _ w cs tasks' w' Hall He)
    as (_ & Hlen & _ & Hc).
  rewrite requestedAll_fresh, Nat.sub_0_r, repeat_length in *.
  exists (requestedAll tasks'). split; [|split].
  - rewrite <- Hlen. apply requestedAll_bound.
  - exact Hc.
  - intros Hs. now rewrite (requestedAll_settled tasks' Hs).
Qed.

End Overlapping.

(** X10: however many clicks overlap on a tab whose address stays in
    front, and however their turns interleave, the tab-creation requests
    issued are all for the one address of that tab, there are never more
    of them than clicks, and there are as many as clicks once every
    invocation has settled. *)
Theorem overlapping_clicks :
  forall (World : Type) (h : Host World) (u encodedUrl : jsstring),
    u <> [] ->
    URI.encodeURIComponent (Str u) = Normal encodedUrl ->
    (forall w, exists tab rest w',
       tabs_query h activeTabQuery w = (Normal (tab :: rest), w') /\
       url tab = Str u) ->
    forall (n : nat) (schedule : list nat) (w : World) cs tasks' w',
      eventLoop h schedule (repeat (Pending clickHandler) n) w = (cs, tasks', w') ->
      exists k, (k <= n)%nat /\
        created cs = repeat (Str (share_prefix ++ encodedUrl)) k /\
        (forallb isSettled tasks' = true -> k = n).
Proof.
  intros World h u enc Hne He Hfront n schedule w cs tasks' w'.
  apply (overlapping h u enc Hne He Hfront).
Qed.

Lemma overlapping_clicks_witness :
  exists k, (k <= 3)%nat /\
    created (fst (fst (eventLoop
      (fixedHost (Normal [mkTab 1 (Str nihongo)]) (Normal (mkTab 2 Undefined)))
      [2; 0; 0; 1; 2; 0; 2]%nat (repeat (Pending clickHandler) 3) tt)))
    = repeat (Str (share_prefix
                ++ js "https%3A%2F%2Fexample.com%2F%E6%97%A5%E6%9C%AC%E8%AA%9E")) k /\
    (forallb isSettled (snd (fst (eventLoop
       (fixedHost (Normal [mkTab 1 (Str nihongo)]) (Normal (mkTab 2 Undefined)))
       [2; 0; 0; 1; 2; 0; 2]%nat (repeat (Pending clickHandler) 3) tt))) = true ->
     k = 3%nat).
Proof.
  refine (overlapping_clicks unit
            (fixedHost (Normal [mkTab 1 (Str nihongo)]) (Normal (mkTab 2 Undefined)))
            nihongo (js "https%3A%2F%2Fexample.com%2F%E6%97%A5%E6%9C%AC%E8%AA%9E")
            _ eq_refl
            (fun w => ex_intro _ (mkTab 1 (Str nihongo))
               (ex_intro _ [] (ex_intro _ w (conj eq_refl eq_refl))))
            3%nat [2; 0; 0; 1; 2; 0; 2]%nat tt _ _ _ eq_refl).
  discriminate.
Defined.

(** ** One click on the event loop *)

Section OneClick.

Context {World : Type} (h : Host World).

Lemma eventLoop_settled (schedule : list nat) (c : completion unit) (w : World) :
  eventLoop h schedule [Settled c] w = ([], [Settled c], w).
Proof.
  induction schedule as [|i schedule IH]; [reflexivity|].
  cbn [eventLoop]. destruct i as [|i]; cbn [turnAt]; now rewrite IH.
Qed.

(** The first turn the schedule gives to a lone task, and what is left of
    the schedule after it. *)
Lemma eventLoop_next (schedule : list nat) (p : Async unit) (w : World) :
  (1 <= count_occ Nat.eq_dec schedule 0)%nat ->
  exists later,
    count_occ Nat.eq_dec later 0%nat = (count_occ Nat.eq_dec schedule 0 - 1)%nat /\
    forall cs t w',
      turn h p w = (cs, t, w') ->
      eventLoop h schedule [Pending p] w =
      (cs ++ fst (fst (eventLoop h later [t] w')),
       snd (fst (eventLoop h later [t] w')),
       snd (eventLoop h later [t] w')).
Proof.
  induction schedule as [|i schedule IH]; intros Hc; [cbn in Hc; lia|].
  destruct i as [|i].
  - exists schedule. split; [cbn; lia|].
    intros cs t w' Ht. cbn [eventLoop turnAt]. rewrite Ht.
    now destruct (eventLoop h schedule [t] w') as [[? ?] ?].
  - cbn [count_occ] in Hc.
    destruct (Nat.eq_dec (S i) 0) as [|_]; [discriminate|].
    destruct (IH Hc) as (later & Hl & Hk). exists later. split.
    + cbn [count_occ]. destruct (Nat.eq_dec (S i) 0); [discriminate|exact Hl].
    + intros cs t w' Ht. cbn [eventLoop turnAt]. now rewrite (Hk cs t w' Ht).
Qed.

(** Gives the lone pending task of the goal its next turn. *)
Ltac next_turn s' T :=
  match goal with
  | |- context [eventLoop ?h ?s [Pending ?p] ?w] =>
      let C := fresh "C" in
      let E := fresh "E" in
      destruct (eventLoop_next s p w ltac:(lia)) as (s' & C & E);
      destruct (turn h p w) as [[? ?] ?] eqn:T;
      rewrite (E _ _ _ eq_refl); clear E
  end.

Lemma one_click (schedule : list nat) (w : World) :
  (3 <= count_occ Nat.eq_dec schedule 0)%nat ->
  eventLoop h schedule [Pending clickHandler] w =
  (calls (run h clickHandler w), [Settled (settled (run h clickHandler w))],
   world (run h clickHandler w)).
Proof.
  intros Hc. rewrite run_clickHandler.
  next_turn s1 T1.
  unfold clickHandler in T1. cbn [abind turn] in T1. fold activeTabQuery in T1.
  destruct (tabs_query h activeTabQuery w) as [[tabs|e] w'];
    injection T1 as <- <- <-.
  2:{ now rewrite eventLoop_settled. }
  cbn [abind]. fold (first_url tabs).
  destruct (ToBoolean (first_url tabs)) eqn:Ht.
  2:{ next_turn s2 T2. cbn [turn] in T2. injection T2 as <- <- <-.
      now rewrite eventLoop_settled. }
  rewrite (member_url_guarded tabs Ht). cbn [eval abind].
  destruct (URI.encodeURIComponent (first_url tabs)) as [enc|e]; cbn [eval abind].
  2:{ next_turn s2 T2. cbn [turn] in T2. injection T2 as <- <- <-.
      now rewrite eventLoop_settled. }
  next_turn s2 T2. cbn [turn] in T2. cbv zeta.
  destruct (tabs_create h _ w') as [[opened|e] w'']; injection T2 as <- <- <-.
  2:{ now rewrite eventLoop_settled. }
  cbn [abind].
  next_turn s3 T3. cbn [turn] in T3. injection T3 as <- <- <-.
  now rewrite eventLoop_settled.
Qed.

End OneClick.

(** X11: a single click needs three turns of the event loop at most:
    under any schedule that gives its invocation three turns or more,
    whatever other turns it holds, the calls issued, the way the promise
    settles and the state the host is left in are those of the invocation
    run in one go. *)
Theorem one_click_any_schedule :
  forall (World : Type) (h : Host World) (schedule : list nat) (w : World),
    (3 <= count_occ Nat.eq_dec schedule 0)%nat ->
    eventLoop h schedule [Pending clickHandler] w =
    (calls (run h clickHandler w), [Settled (settled (run h clickHandler w))],
     world (run h clickHandler w)).
Proof. intros World h. apply (one_click h). Qed.

Lemma one_click_any_schedule_witness :
  eventLoop windowHost [4; 0; 0; 1; 0; 0]%nat [Pending clickHandler]
    [mkTab 1 (Str atest)]
  = (calls (run windowHost clickHandler [mkTab 1 (Str atest)]),
     [Settled (settled (run windowHost clickHandler [mkTab 1 (Str atest)]))],
     world (run windowHost clickHandler [mkTab 1 (Str atest)])).
Proof.
  refine (one_click_any_schedule (list Tab) windowHost [4; 0; 0; 1; 0; 0]%nat
            [mkTab 1 (Str atest)] _).
  cbn. lia.
Defined.
